(** * boartty.search.parser: the search-query compiler

    A shallow embedding of [boartty/search/parser.py].  The productions
    of the yacc grammar are the functions [p_*] below; the expressions
    they build with sqlalchemy are kept as a syntax tree ([sqlexpr]), one
    constructor per sqlalchemy call the source makes. *)

From Stdlib Require Import ZArith List String Ascii Bool Lia.
From Stdlib Require Import DecimalString.
Import ListNotations.
Open Scope string_scope.
Open Scope Z_scope.

(** ** Python values and exceptions *)

Module Py.

(** The exceptions the productions can raise:
    [boartty.search.SearchSyntaxError(msg)], the builtin [SyntaxError()]
    and the [AttributeError] of calling a method on [None]. *)
Inductive exn : Type :=
| SearchSyntaxError (msg : string)
| SyntaxError
| AttributeError.

Inductive result (A : Type) : Type :=
| Ok (a : A)
| Raise (e : exn).
Arguments Ok {A} a.
Arguments Raise {A} e.

Definition bind {A B} (r : result A) (k : A -> result B) : result B :=
  match r with
  | Ok a => k a
  | Raise e => Raise e
  end.

(** [s.startswith(c)] for a one-character prefix. *)
Definition startswith_char (c : ascii) (s : string) : bool :=
  match s with
  | String c' _ => Ascii.eqb c c'
  | EmptyString => false
  end.

(** [s[n:]] *)
Fixpoint slice_from (n : nat) (s : string) : string :=
  match n, s with
  | O, _ => s
  | S n', String _ s' => slice_from n' s'
  | S _, EmptyString => EmptyString
  end.

Definition lower_char (c : ascii) : ascii :=
  let n := nat_of_ascii c in
  if andb (Nat.leb 65 n) (Nat.leb n 90) then ascii_of_nat (n + 32) else c.

(** [s.lower()] on ASCII text. *)
Fixpoint lower (s : string) : string :=
  match s with
  | EmptyString => EmptyString
  | String c s' => String (lower_char c) (lower s')
  end.

(** [x in [a, b, ...]] for strings. *)
Fixpoint str_in (x : string) (l : list string) : bool :=
  match l with
  | [] => false
  | y :: l' => String.eqb x y || str_in x l'
  end.

(** [str(n)] for an integer, as ['%s' % n] prints it. *)
Definition str_of_int (n : Z) : string :=
  NilZero.string_of_int (Z.to_int n).

(** [str(n)] for an offset. *)
Definition str_of_nat (n : nat) : string :=
  NilZero.string_of_uint (Nat.to_uint n).

Definition is_digit (c : ascii) : bool :=
  let n := nat_of_ascii c in andb (Nat.leb 48 n) (Nat.leb n 57).

Definition is_alpha (c : ascii) : bool :=
  let n := nat_of_ascii c in
  orb (andb (Nat.leb 65 n) (Nat.leb n 90)) (andb (Nat.leb 97 n) (Nat.leb n 122)).

(** ASCII white space, the characters [\s] matches. *)
Definition is_space (c : ascii) : bool :=
  let n := nat_of_ascii c in
  orb (Nat.eqb n 32) (andb (Nat.leb 9 n) (Nat.leb n 13)).

Definition digit_val (c : ascii) : Z := Z.of_nat (nat_of_ascii c) - 48.

(** The value of a run of decimal digits, most significant first. *)
Fixpoint digits_val (acc : Z) (l : list ascii) : Z :=
  match l with
  | [] => acc
  | c :: l' => digits_val (10 * acc + digit_val c) l'
  end.

Definition strip_left (l : list ascii) : list ascii :=
  (fix go (l : list ascii) : list ascii :=
     match l with
     | c :: l' => if is_space c then go l' else l
     | [] => []
     end) l.

Definition strip (l : list ascii) : list ascii :=
  rev (strip_left (rev (strip_left l))).

(** Digits with single underscores between them, as [int()] accepts. *)
Fixpoint int_digits (prev_digit : bool) (acc : list ascii) (l : list ascii)
  : option (list ascii) :=
  match l with
  | [] => if prev_digit then Some (rev acc) else None
  | c :: l' =>
      if is_digit c then int_digits true (c :: acc) l'
      else if andb (Ascii.eqb c "_") prev_digit then int_digits false acc l'
      else None
  end.

(** [int(s)] for a string: [None] stands for the [ValueError].  White
    space around the literal is dropped, one sign is allowed. *)
Definition int_of_str (s : string) : option Z :=
  match strip (list_ascii_of_string s) with
  | "-"%char :: l => option_map (fun d => - digits_val 0 d) (int_digits false [] l)
  | "+"%char :: l => option_map (digits_val 0) (int_digits false [] l)
  | l => option_map (digits_val 0) (int_digits false [] l)
  end.

End Py.
Export Py.

(** ** The expressions built with sqlalchemy *)

Set Warnings "-register-all".

Inductive table : Type :=
| story_table | user_table | project_table | task_table | revision_table
| approval_table | tag_table | comment_table | message_table | file_table.

Inductive cmpop : Type := OpEq | OpNe | OpLt | OpLe | OpGe.

(** One constructor per construct of the source:
    [boartty.db.T.c.name], bound Python values, comparison operators,
    [and_], [or_], [not_], [select(...).where(...)], [.in_], [.notin_],
    [.like], [func.f(...)], string concatenation with a column and
    [now - timedelta(seconds=d)]. *)
Inductive sqlexpr : Type :=
| Col (t : table) (c : string)
| Str (s : string)
| Int (n : Z)
| PyBool (b : bool)
| DateTimeSub (now : Z) (seconds : Z)
| Concat (l r : sqlexpr)
| Cmp (op : cmpop) (l r : sqlexpr)
| Like (e : sqlexpr) (pattern : string)
| InList (e : sqlexpr) (vals : list string)
| NotInList (e : sqlexpr) (vals : list string)
| InSelect (e : sqlexpr) (sel : sqlexpr)
| Select (cols : list sqlexpr) (where_ : option sqlexpr)
| Func (name : string) (args : list sqlexpr)
| and_ (clauses : list sqlexpr)
| or_ (clauses : list sqlexpr)
| not_ (clause : sqlexpr).

Notation "a == b" := (Cmp OpEq a b) (at level 70, no associativity).

(** [x is not None] for a Python object [x]: an identity test, which
    the interpreter decides when the production runs.  Every
    [sqlexpr] stands for an object, and none of them is [None]. *)
Definition is_not_None (x : sqlexpr) : bool := true.

(** [select([story_table.c.key], correlate=False).where(and_( *filters))] *)
Definition select_story_keys (filters : list sqlexpr) : sqlexpr :=
  Select [Col story_table "key"] (Some (and_ filters)).

(** ** age_to_delta *)

Definition age_to_delta (delta : Z) (unit : string) : Z :=
  if str_in unit ["seconds"; "second"; "sec"; "s"] then delta
  else if str_in unit ["minutes"; "minute"; "min"; "m"] then delta * 60
  else if str_in unit ["hours"; "hour"; "hr"; "h"] then delta * 60 * 60
  else if str_in unit ["days"; "day"; "d"] then delta * 60 * 60 * 24
  else if str_in unit ["weeks"; "week"; "w"] then delta * 60 * 60 * 24 * 7
  else if str_in unit ["months"; "month"; "mon"] then delta * 60 * 60 * 24 * 30
  else if str_in unit ["years"; "year"; "y"] then delta * 60 * 60 * 24 * 365
  else delta.

(** ** The label micro-grammar

    [label_re] is matched by a backtracking engine: every function
    below lists the ways its part of the pattern can match a prefix of
    the input, in the order the engine tries them (greedy first), and
    [label_re_match] takes the first way that lets the whole pattern
    match. *)

Module LabelRe.

Record groups : Type := {
  g_label : string;
  g_operator : string;
  g_value : string;
  g_user : option string
}.

Definition is_name_char (c : ascii) : bool :=
  is_alpha c || is_digit c || Ascii.eqb c "_" || Ascii.eqb c "-".

Definition is_sign (c : ascii) : bool := Ascii.eqb c "-" || Ascii.eqb c "+".

(** [(?P<label>[a-zA-Z0-9_-]+([a-zA-Z]|((?<![-+])[0-9])))]: [run] is
    what the [+] has taken so far, last character first. *)
Fixpoint label_ways (run : list ascii) (s : list ascii)
  : list (list ascii * list ascii) :=
  match s with
  | [] => []
  | c :: s' =>
      (if is_name_char c then label_ways (c :: run) s' else [])
      ++ match run with
         | [] => []
         | prev :: _ =>
             if is_alpha c || (is_digit c && negb (is_sign prev))
             then [(rev (c :: run), s')] else []
         end
  end.

(** [x?] for a one-character class. *)
Definition opt_ways (cls : ascii -> bool) (s : list ascii)
  : list (list ascii * list ascii) :=
  match s with
  | c :: s' => if cls c then [([c], s'); ([], s)] else [([], s)]
  | [] => [([], s)]
  end.

(** [x+] for a one-character class, longest first. *)
Fixpoint plus_ways (cls : ascii -> bool) (run : list ascii) (s : list ascii)
  : list (list ascii * list ascii) :=
  match s with
  | [] => []
  | c :: s' =>
      if cls c then plus_ways cls (c :: run) s' ++ [(rev (c :: run), s')]
      else []
  end.

(** [(?P<operator>[<>]?=?)] *)
Definition operator_ways (s : list ascii) : list (list ascii * list ascii) :=
  flat_map (fun '(a, s1) =>
    map (fun '(b, s2) => ((a ++ b)%list, s2)) (opt_ways (Ascii.eqb "=") s1))
    (opt_ways (fun c => Ascii.eqb c "<" || Ascii.eqb c ">") s).

(** [(?P<value>[-+]?[0-9]+)] *)
Definition value_ways (s : list ascii) : list (list ascii * list ascii) :=
  flat_map (fun '(a, s1) =>
    map (fun '(b, s2) => ((a ++ b)%list, s2)) (plus_ways is_digit [] s1))
    (opt_ways is_sign s).

(** A literal prefix, optional: [(user=)?] *)
Fixpoint strip_literal (lit s : list ascii) : option (list ascii) :=
  match lit, s with
  | [], _ => Some s
  | a :: lit', c :: s' => if Ascii.eqb a c then strip_literal lit' s' else None
  | _ :: _, [] => None
  end.

(** [($|,(user=)?(?P<user>\S+))]: [$] matches at the end and before a
    final newline; nothing follows [\S+], so each of its ways ends the
    match. *)
Definition tail_ways (s : list ascii) : list (option (list ascii)) :=
  (match s with
   | [] => [None]
   | [c] => if Ascii.eqb c "010" then [None] else []
   | _ => []
   end)
  ++ match s with
     | c :: s' =>
         if Ascii.eqb c "," then
           (match strip_literal (list_ascii_of_string "user=") s' with
            | Some s'' => map (fun '(u, _) => Some u)
                              (plus_ways (fun c => negb (is_space c)) [] s'')
            | None => []
            end)
           ++ map (fun '(u, _) => Some u)
                  (plus_ways (fun c => negb (is_space c)) [] s')
         else []
     | [] => []
     end.

Definition str (l : list ascii) : string := string_of_list_ascii l.

Definition all_ways (s : list ascii) : list groups :=
  flat_map (fun '(label, s1) =>
  flat_map (fun '(op, s2) =>
  flat_map (fun '(value, s3) =>
  map (fun user =>
         {| g_label := str label; g_operator := str op;
            g_value := str value; g_user := option_map str user |})
      (tail_ways s3))
  (value_ways s2))
  (operator_ways s1))
  (label_ways [] s).

(** [label_re.match(s)]: the match object's groups, or [None]. *)
Definition label_re_match (s : string) : option groups :=
  hd_error (all_ways (list_ascii_of_string s)).

End LabelRe.
Export LabelRe.


(** ** Tokens and parse context *)

(** The token kinds the grammar names (the list [tokens] of the
    tokenizer), each with the value the productions read from it: the
    lexeme of a connective or of a generic operator, the integer of a
    [NUMBER], the text of a string. *)
Inductive token : Type :=
| AND (lexeme : string) | OR (lexeme : string)
| NOT | NEG | LPAREN | RPAREN
| NUMBER (n : Z)
| SSTRING (s : string) | DSTRING (s : string) | USTRING (s : string)
| OP_AGE | OP_RECENTLYSEEN | OP_STORY | OP_OWNER | OP_REVIEWER | OP_COMMIT
| OP_PROJECT | OP_PROJECTS | OP_PROJECT_KEY | OP_BRANCH | OP_TAG | OP_REF
| OP_LABEL | OP_MESSAGE | OP_COMMENT | OP_HAS | OP_IS | OP_STATUS | OP_FILE
| OP_LIMIT
| OP (lexeme : string).

(** A token as the lexer hands it over: its kind and value, and
    [lexpos], its offset in the query. *)
Record LexToken : Type := { tok : token; lexpos : nat }.

(** What a compile call reads besides the tokens: [p.parser.username],
    the clock ([datetime.datetime.utcnow()]) and [p.lexer.lexdata], the
    query string. *)
Record context : Type := {
  username : string;
  utcnow : Z;
  lexdata : string
}.

(** The second symbol of [reviewer_term]: a string or a [NUMBER]. *)
Inductive reviewer_arg : Type :=
| RevStr (s : string)
| RevNum (n : Z).

(** ** The term productions *)

Section Productions.

Variable ctx : context.

Definition p_age_term (n : Z) (unit : string) : result sqlexpr :=
  let now := utcnow ctx in
  let delta := n in
  let delta := age_to_delta delta unit in
  Ok (Cmp OpLt (Col story_table "updated") (DateTimeSub now delta)).

Definition p_recentlyseen_term (n : Z) (unit : string) : result sqlexpr :=
  let delta := n in
  let delta := age_to_delta delta unit in
  let s := Select [Func "datetime"
                     [Func "max" [Col story_table "last_seen"];
                      Str ("-" ++ str_of_int delta ++ " seconds")]] None in
  Ok (Cmp OpGe (Col story_table "last_seen") s).

Definition p_story_term (n : Z) : result sqlexpr :=
  Ok (Col story_table "id" == Int n).

(** The three-way literal match on a user, shared by the owner, the
    reviewer and the label terms. *)
Definition user_literal (v : string) : sqlexpr :=
  or_ [Col user_table "username" == Str v;
       Col user_table "email" == Str v;
       Col user_table "name" == Str v].

Definition p_owner_term (v : string) : result sqlexpr :=
  if String.eqb v "self" then
    Ok (Col user_table "username" == Str (username ctx))
  else
    Ok (user_literal v).

Definition p_reviewer_term (a : reviewer_arg) : result sqlexpr :=
  let filters :=
    [Col approval_table "story_key" == Col story_table "key";
     Col approval_table "user_key" == Col user_table "key"] in
  let number :=
    match a with
    | RevNum n => Some n
    | RevStr s => int_of_str s
    end in
  let last :=
    match number with
    | Some number => Col user_table "id" == Int number
    | None =>
        match a with
        | RevStr s =>
            if String.eqb s "self" then
              Col user_table "username" == Str (username ctx)
            else user_literal s
        | RevNum n => Col user_table "id" == Int n
        end
    end in
  let filters := (filters ++ [last])%list in
  Ok (InSelect (Col story_table "key") (select_story_keys filters)).

Definition p_commit_term (v : string) : result sqlexpr :=
  let filters :=
    [Col revision_table "story_key" == Col story_table "key";
     Col revision_table "commit" == Str v] in
  Ok (InSelect (Col story_table "key") (select_story_keys filters)).

Definition p_project_term (v : string) : result sqlexpr :=
  if startswith_char "^" v then
    Ok (Func "matches" [Str v; Col project_table "name"])
  else
    Ok (Col project_table "name" == Str v).

Definition p_projects_term (v : string) : result sqlexpr :=
  Ok (Like (Col project_table "name") (v ++ "%")).

Definition p_project_key_term (n : Z) : result sqlexpr :=
  let filters :=
    [Col task_table "story_key" == Col story_table "key";
     Col task_table "project_key" == Int n] in
  Ok (InSelect (Col story_table "key") (select_story_keys filters)).

Definition p_branch_term (v : string) : result sqlexpr :=
  if startswith_char "^" v then
    Ok (Func "matches" [Str v; Col story_table "branch"])
  else
    Ok (Col story_table "branch" == Str v).

Definition p_tag_term (v : string) : result sqlexpr :=
  if startswith_char "^" v then
    Ok (Func "matches" [Str v; Col tag_table "name"])
  else
    Ok (Col tag_table "name" == Str v).

Definition p_ref_term (v : string) : result sqlexpr :=
  if startswith_char "^" v then
    Ok (Func "matches" [Str v; Concat (Str "refs/heads/") (Col story_table "branch")])
  else
    Ok (Col story_table "branch" == Str (slice_from (String.length "refs/heads/") v)).

(** [int(args.group('value'))]: the group is a sign and digits. *)
Definition int_of_value (v : string) : Z :=
  match int_of_str v with
  | Some n => n
  | None => 0
  end.

(** The comparison of [Approval.value] the operator selects: the
    source has a branch for ["="], [">="] and ["<="] and no [else]. *)
Definition label_value_filter (op : string) (value : Z) : list sqlexpr :=
  if String.eqb op "=" then [Col approval_table "value" == Int value]
  else if String.eqb op ">=" then [Cmp OpGe (Col approval_table "value") (Int value)]
  else if String.eqb op "<=" then [Cmp OpLe (Col approval_table "value") (Int value)]
  else [].

Definition label_user_filter (user : option string) : list sqlexpr :=
  match user with
  | Some user =>
      [Col approval_table "user_key" == Col user_table "key";
       if String.eqb user "self"
       then Col user_table "username" == Str (username ctx)
       else user_literal user]
  | None => []
  end.

(** The body of [p_label_term] once [label_re] has matched. *)
Definition label_filters (args : groups) : list sqlexpr :=
  let label := g_label args in
  let op := if String.eqb (g_operator args) "" then "=" else g_operator args in
  let value := int_of_value (g_value args) in
  let user := g_user args in
  ([Col approval_table "story_key" == Col story_table "key";
   Col approval_table "category" == Str label]
  ++ label_value_filter op value
  ++ label_user_filter user)%list.

Definition p_label_term (v : string) : result sqlexpr :=
  match label_re_match v with
  | None => Raise AttributeError
  | Some args =>
      Ok (InSelect (Col story_table "key") (select_story_keys (label_filters args)))
  end.

Definition p_message_term (v : string) : result sqlexpr :=
  let filters :=
    [Col revision_table "story_key" == Col story_table "key";
     Like (Col revision_table "message") ("%" ++ v ++ "%")] in
  Ok (InSelect (Col story_table "key") (select_story_keys filters)).

Definition p_comment_term (v : string) : result sqlexpr :=
  let filters :=
    [Col revision_table "story_key" == Col story_table "key";
     Col revision_table "message" == Str v] in
  let revision_select := select_story_keys filters in
  let filters :=
    [Col revision_table "story_key" == Col story_table "key";
     Col comment_table "revision_key" == Col revision_table "key";
     Col comment_table "message" == Str v] in
  let comment_select := select_story_keys filters in
  Ok (or_ [InSelect (Col story_table "key") comment_select;
           InSelect (Col story_table "key") revision_select]).

Definition p_has_term (v : string) : result sqlexpr :=
  if String.eqb v "draft" then
    let filters :=
      [Col revision_table "story_key" == Col story_table "key";
       Col message_table "revision_key" == Col revision_table "key";
       Col message_table "draft" == PyBool true] in
    Ok (InSelect (Col story_table "key") (select_story_keys filters))
  else
    Raise (SearchSyntaxError ("Syntax error: has:" ++ v ++ " is not supported")).

Definition p_is_term (v : string) : result sqlexpr :=
  let username := username ctx in
  if String.eqb v "reviewed" then
    let filters :=
      [Col approval_table "story_key" == Col story_table "key";
       Cmp OpNe (Col approval_table "value") (Int 0)] in
    Ok (InSelect (Col story_table "key") (select_story_keys filters))
  else if String.eqb v "open" then
    Ok (NotInList (Col story_table "status") ["MERGED"; "ABANDONED"])
  else if String.eqb v "closed" then
    Ok (InList (Col story_table "status") ["MERGED"; "ABANDONED"])
  else if String.eqb v "submitted" then
    Ok (Col story_table "status" == Str "SUBMITTED")
  else if String.eqb v "merged" then
    Ok (Col story_table "status" == Str "MERGED")
  else if String.eqb v "abandoned" then
    Ok (Col story_table "status" == Str "ABANDONED")
  else if String.eqb v "owner" then
    Ok (Col user_table "username" == Str username)
  else if String.eqb v "starred" then
    Ok (Col story_table "starred" == PyBool true)
  else if String.eqb v "held" then
    Ok (Col story_table "held" == PyBool true)
  else if String.eqb v "reviewer" then
    let filters :=
      [Col approval_table "story_key" == Col story_table "key";
       Col approval_table "user_key" == Col user_table "key";
       Col user_table "username" == Str username] in
    Ok (InSelect (Col story_table "key") (select_story_keys filters))
  else if String.eqb v "watched" then
    Ok (Col project_table "subscribed" == PyBool true)
  else
    Raise (SearchSyntaxError ("Syntax error: is:" ++ v ++ " is not supported")).

Definition p_file_term (v : string) : result sqlexpr :=
  if startswith_char "^" v then
    Ok (and_ [or_ [Func "matches" [Str v; Col file_table "path"];
                   Func "matches" [Str v; Col file_table "old_path"]];
              PyBool (is_not_None (Col file_table "status"))])
  else
    Ok (and_ [or_ [Col file_table "path" == Str v;
                   Col file_table "old_path" == Str v];
              PyBool (is_not_None (Col file_table "status"))]).

Definition p_status_term (v : string) : result sqlexpr :=
  if String.eqb v "open" then
    Ok (NotInList (Col story_table "status") ["MERGED"; "ABANDONED"])
  else if String.eqb v "closed" then
    Ok (InList (Col story_table "status") ["MERGED"; "ABANDONED"])
  else
    Ok (Col story_table "status" == Str v).

(** [True == True] is the Python value [True]. *)
Definition p_limit_term (n : Z) : result sqlexpr :=
  Ok (PyBool (Bool.eqb true true)).

Definition p_op_term (lexeme : string) : result sqlexpr :=
  Raise SyntaxError.

(** ** The expression productions *)

Definition p_list_expr (p1 p2 : sqlexpr) : result sqlexpr :=
  Ok (and_ [p1; p2]).

Definition p_paren_expr (p2 : sqlexpr) : result sqlexpr :=
  Ok p2.

(** [p2] is the lexeme of the connective token. *)
Definition p_boolean_expr (p1 : sqlexpr) (p2 : string) (p3 : sqlexpr)
  : result sqlexpr :=
  if String.eqb (lower p2) "and" then Ok (and_ [p1; p3])
  else if String.eqb (lower p2) "or" then Ok (or_ [p1; p3])
  else Raise (SearchSyntaxError ("Boolean " ++ p2 ++ " not recognized")).

Definition p_negative_expr (p2 : sqlexpr) : result sqlexpr :=
  Ok (not_ p2).

(** [p_error(p)]: [None] is the end of the input. *)
Definition p_error (p : option LexToken) : exn :=
  match p with
  | Some t =>
      SearchSyntaxError
        ("Syntax error at " ++ String "034" (slice_from (lexpos t) (lexdata ctx))
         ++ String "034" (" in search string " ++ String "034" (lexdata ctx)
         ++ String "034" (" (col " ++ str_of_nat (lexpos t) ++ ")")))
  | None => SearchSyntaxError "Syntax error: EOF in search string"
  end.

End Productions.

(** ** The grammar engine

    The parser that yacc builds from the productions is a shift-reduce
    automaton.  The grammar is ambiguous, and yacc settles each
    shift/reduce conflict with the [precedence] table of
    [SearchParser]: the rule reduces when its level is above the
    level of the token that could be shifted, or equal to it with the
    rule left-associative; otherwise the token is shifted.  A token
    the table does not list has level 0, and a rule has the level of
    its right-most terminal. *)

Module Grammar.

Inductive assoc : Type := LeftAssoc | RightAssoc.

(** [precedence = (('left', 'NOT', 'NEG'),)] *)
Definition precedence (t : token) : assoc * nat :=
  match t with
  | NOT | NEG => (LeftAssoc, 1%nat)
  | _ => (RightAssoc, 0%nat)
  end.

Definition rule_precedence (rightmost_terminal : option token) : assoc * nat :=
  match rightmost_terminal with
  | Some t => precedence t
  | None => (RightAssoc, 0%nat)
  end.

Inductive action : Type := Shift | Reduce.

Definition resolve (lookahead : token) (rule : assoc * nat) : action :=
  let '(_, slevel) := precedence lookahead in
  let '(rprec, rlevel) := rule in
  if (slevel <? rlevel)%nat then Reduce
  else if (slevel =? rlevel)%nat then
    match rprec with LeftAssoc => Reduce | RightAssoc => Shift end
  else Shift.

(** [string : SSTRING | DSTRING | USTRING] *)
Definition p_string (t : token) : option string :=
  match t with
  | SSTRING s | DSTRING s | USTRING s => Some s
  | _ => None
  end.

Definition is_number (t : token) : bool :=
  match t with NUMBER _ => true | _ => false end.

Definition is_string (t : token) : bool :=
  match p_string t with Some _ => true | None => false end.

Definition is_connective (t : token) : bool :=
  match t with AND _ | OR _ => true | _ => false end.

(** The tokens an expression can begin with. *)
Definition starts_expression (t : token) : bool :=
  match t with
  | AND _ | OR _ | RPAREN | NUMBER _ | SSTRING _ | DSTRING _ | USTRING _ => false
  | _ => true
  end.

(** The lookaheads on which a finished expression or term is reduced:
    the end of the input ([None]) and every token that can come after
    an expression. *)
Definition follows_expression (la : option token) : bool :=
  match la with
  | None => true
  | Some t =>
      starts_expression t || is_connective t
      || match t with RPAREN => true | _ => false end
  end.

(** The right-hand sides of the term productions, by the symbols
    after the operator token, each with its action. *)
Inductive term_rule : Type :=
| NumberString (act : Z -> string -> result sqlexpr)
| NumberOnly (act : Z -> result sqlexpr)
| StringOnly (act : string -> result sqlexpr)
| StringOrNumber (act : reviewer_arg -> result sqlexpr)
| Bare (act : result sqlexpr).

Definition term_rule_of (ctx : context) (op : token) : option term_rule :=
  match op with
  | OP_AGE => Some (NumberString (p_age_term ctx))
  | OP_RECENTLYSEEN => Some (NumberString p_recentlyseen_term)
  | OP_STORY => Some (NumberOnly p_story_term)
  | OP_OWNER => Some (StringOnly (p_owner_term ctx))
  | OP_REVIEWER => Some (StringOrNumber (p_reviewer_term ctx))
  | OP_COMMIT => Some (StringOnly p_commit_term)
  | OP_PROJECT => Some (StringOnly p_project_term)
  | OP_PROJECTS => Some (StringOnly p_projects_term)
  | OP_PROJECT_KEY => Some (NumberOnly p_project_key_term)
  | OP_BRANCH => Some (StringOnly p_branch_term)
  | OP_TAG => Some (StringOnly p_tag_term)
  | OP_REF => Some (StringOnly p_ref_term)
  | OP_LABEL => Some (StringOnly (p_label_term ctx))
  | OP_MESSAGE => Some (StringOnly p_message_term)
  | OP_COMMENT => Some (StringOnly p_comment_term)
  | OP_HAS => Some (StringOnly p_has_term)
  | OP_IS => Some (StringOnly (p_is_term ctx))
  | OP_STATUS => Some (StringOnly p_status_term)
  | OP_FILE => Some (StringOnly p_file_term)
  | OP_LIMIT => Some (NumberOnly p_limit_term)
  | OP lexeme => Some (Bare (p_op_term lexeme))
  | _ => None
  end.

(** The parsing stack: shifted tokens and reduced expressions, top
    first. *)
Inductive sym : Type :=
| ST (t : token)
| SE (e : sqlexpr).

Definition number_of (t : token) : option Z :=
  match t with NUMBER n => Some n | _ => None end.

(** The action of a term whose operator takes one argument, on the
    argument token [a]. *)
Definition one_argument (a : token) (rule : term_rule)
  : option (result sqlexpr) :=
  match rule with
  | NumberOnly act => option_map act (number_of a)
  | StringOnly act => option_map act (p_string a)
  | StringOrNumber act =>
      match number_of a with
      | Some n => Some (act (RevNum n))
      | None => option_map (fun s => act (RevStr s)) (p_string a)
      end
  | NumberString _ | Bare _ => None
  end.

(** The action of a term whose operator takes a [NUMBER] and a string. *)
Definition two_arguments (a1 a2 : token) (rule : term_rule)
  : option (result sqlexpr) :=
  match rule with
  | NumberString act =>
      match number_of a1, p_string a2 with
      | Some n, Some u => Some (act n u)
      | _, _ => None
      end
  | _ => None
  end.

(** [paren_expr : LPAREN expression RPAREN] on top of the stack. *)
Definition paren_handle (stack : list sym) : option (result sqlexpr * list sym) :=
  match stack with
  | ST r :: SE e :: ST l :: below =>
      match r, l with
      | RPAREN, LPAREN => Some (p_paren_expr e, below)
      | _, _ => None
      end
  | _ => None
  end.

(** A finished term on top of the stack.  The unit productions
    [term : age_term | ...] and [expression : term | ...] copy the
    value ([p[0] = p[1]]). *)
Definition term_handle (ctx : context) (stack : list sym)
  : option (result sqlexpr * list sym) :=
  match stack with
  | ST a :: below =>
      match term_rule_of ctx a with
      | Some (Bare act) => Some (act, below)
      | Some _ => None
      | None =>
          match below with
          | ST b :: below1 =>
              match term_rule_of ctx b with
              | Some rule =>
                  option_map (fun r => (r, below1)) (one_argument a rule)
              | None =>
                  match below1 with
                  | ST op :: below2 =>
                      match term_rule_of ctx op with
                      | Some rule =>
                          option_map (fun r => (r, below2)) (two_arguments b a rule)
                      | None => None
                      end
                  | _ => None
                  end
              end
          | _ => None
          end
      end
  | _ => None
  end.

(** The finished term or parenthesis on top of the stack, if there is
    one: the value of its action and the stack under it. *)
Definition handle (ctx : context) (stack : list sym)
  : option (result sqlexpr * list sym) :=
  match paren_handle stack with
  | Some h => Some h
  | None => term_handle ctx stack
  end.

(** The action on lookahead [la] in a state that holds a finished
    rule: reduce when [la] cannot be shifted there, else what the
    precedence table says. *)
Definition action_on (la : option token) (rightmost_terminal : option token)
  : action :=
  match la with
  | None | Some RPAREN => Reduce
  | Some t => resolve t (rule_precedence rightmost_terminal)
  end.

(** The reductions of [negative_expr], [boolean_expr] and [list_expr]
    with the expression [e] on top of the stack. *)
Fixpoint reduce_top (la : option token) (e : sqlexpr) (below : list sym)
  : result (list sym) :=
  match below with
  | ST NOT :: rest =>
      match action_on la (Some NOT) with
      | Reduce => bind (p_negative_expr e) (fun e' => reduce_top la e' rest)
      | Shift => Ok (SE e :: below)
      end
  | ST NEG :: rest =>
      match action_on la (Some NEG) with
      | Reduce => bind (p_negative_expr e) (fun e' => reduce_top la e' rest)
      | Shift => Ok (SE e :: below)
      end
  | ST (AND lexeme) :: SE e1 :: rest =>
      match action_on la (Some (AND lexeme)) with
      | Reduce => bind (p_boolean_expr e1 lexeme e) (fun e' => reduce_top la e' rest)
      | Shift => Ok (SE e :: below)
      end
  | ST (OR lexeme) :: SE e1 :: rest =>
      match action_on la (Some (OR lexeme)) with
      | Reduce => bind (p_boolean_expr e1 lexeme e) (fun e' => reduce_top la e' rest)
      | Shift => Ok (SE e :: below)
      end
  | SE e1 :: rest =>
      match action_on la None with
      | Reduce => bind (p_list_expr e1 e) (fun e' => reduce_top la e' rest)
      | Shift => Ok (SE e :: below)
      end
  | _ => Ok (SE e :: below)
  end.

(** All the reductions the automaton makes before it looks at what to
    do with the lookahead [la] itself ([None]: the end of the input). *)
Definition reduce (ctx : context) (la : option LexToken) (stack : list sym)
  : result (list sym) :=
  let la_tok := option_map tok la in
  let reduced :=
    match handle ctx stack with
    | Some (r, below) =>
        if follows_expression la_tok
        then bind r (fun e => Ok (SE e :: below))
        else Raise (p_error ctx la)
    | None => Ok stack
    end in
  bind reduced (fun stack =>
    match stack with
    | SE e :: below =>
        if follows_expression la_tok then reduce_top la_tok e below
        else Raise (p_error ctx la)
    | _ => Ok stack
    end).

(** Whether the state on top of the stack shifts token [t]. *)
Definition can_shift (ctx : context) (t : token) (stack : list sym) : bool :=
  match stack with
  | [] => starts_expression t
  | SE _ :: below =>
      starts_expression t || is_connective t
      || match t, below with
         | RPAREN, ST LPAREN :: _ => true
         | _, _ => false
         end
  | ST top :: below =>
      match term_rule_of ctx top with
      | Some (NumberString _) | Some (NumberOnly _) => is_number t
      | Some (StringOnly _) => is_string t
      | Some (StringOrNumber _) => is_string t || is_number t
      | Some (Bare _) => false
      | None =>
          match top with
          | NOT | NEG | LPAREN | AND _ | OR _ => starts_expression t
          | NUMBER _ =>
              match below with
              | ST op :: _ =>
                  match term_rule_of ctx op with
                  | Some (NumberString _) => is_string t
                  | _ => false
                  end
              | _ => false
              end
          | _ => false
          end
      end
  end.

(** The driver: reduce, then shift the lookahead or report it with
    [p_error]; at the end of the input the stack must have come down
    to one expression, the result. *)
Fixpoint parse_loop (ctx : context) (stack : list sym) (input : list LexToken)
  : result sqlexpr :=
  match input with
  | [] =>
      match reduce ctx None stack with
      | Ok [SE e] => Ok e
      | Ok _ => Raise (p_error ctx None)
      | Raise x => Raise x
      end
  | t :: rest =>
      match reduce ctx (Some t) stack with
      | Ok stack' =>
          if can_shift ctx (tok t) stack'
          then parse_loop ctx (ST (tok t) :: stack') rest
          else Raise (p_error ctx (Some t))
      | Raise x => Raise x
      end
  end.

End Grammar.
Export Grammar.

(** What a call of the parser comes to: a predicate, an exception
    that leaves the call, or the builtin [SyntaxError] of a
    production, which yacc itself catches to start its error recovery
    (not modelled: the recovery is yacc's). *)
Inductive outcome : Type :=
| Returns (e : sqlexpr)
| Raises (x : exn)
| ErrorRecovery.

Definition parse (ctx : context) (input : list LexToken) : outcome :=
  match parse_loop ctx [] input with
  | Ok e => Returns e
  | Raise SyntaxError => ErrorRecovery
  | Raise x => Raises x
  end.

(** ** Terms as token sequences

    The right-hand sides of the term productions, read as a function
    on token kinds: the value of the term's action when the tokens are
    exactly one term. *)
Definition term_value (ctx : context) (ts : list token)
  : option (result sqlexpr) :=
  match ts with
  | [op] =>
      match term_rule_of ctx op with
      | Some (Bare act) => Some act
      | _ => None
      end
  | [op; a] =>
      match term_rule_of ctx op with
      | Some rule => one_argument a rule
      | None => None
      end
  | [op; a1; a2] =>
      match term_rule_of ctx op with
      | Some rule => two_arguments a1 a2 rule
      | None => None
      end
  | _ => None
  end.

(** The stack after the tokens [ts] have been shifted on [stack]. *)
Definition shifted (ts : list LexToken) (stack : list sym) : list sym :=
  (rev (map (fun t => ST (tok t)) ts) ++ stack)%list.

(** A token at offset 0, for the examples. *)
Definition at0 (t : token) : LexToken := {| tok := t; lexpos := 0 |}.

(** The tokens of a term, as the productions list them: an operator
    alone ([op_term]), an operator and one argument, or an operator, a
    [NUMBER] and a string. *)
Inductive term_tokens (ctx : context) : list token -> result sqlexpr -> Prop :=
| tokens_bare op act :
    term_rule_of ctx op = Some (Bare act) -> term_tokens ctx [op] act
| tokens_one op rule a r :
    term_rule_of ctx op = Some rule -> one_argument a rule = Some r ->
    term_tokens ctx [op; a] r
| tokens_two op act n a2 u :
    term_rule_of ctx op = Some (NumberString act) -> p_string a2 = Some u ->
    term_tokens ctx [op; NUMBER n; a2] (act n u).

(** What the caller of [parser.parse] sees of a production's result. *)
Definition outcome_of (r : result sqlexpr) : outcome :=
  match r with
  | Ok e => Returns e
  | Raise SyntaxError => ErrorRecovery
  | Raise x => Raises x
  end.





(** [needle in hay] for strings. *)
Fixpoint contains (needle hay : string) : bool :=
  String.prefix needle hay ||
  match hay with
  | EmptyString => false
  | String _ hay' => contains needle hay'
  end.

(** ** The duration table and prefix stripping, in the words of the
    specification *)

Module Spec.

(** The multiplier of a unit: s/sec/second(s) 1, m/min/minute(s) 60,
    h/hr/hour(s) 3600, d/day(s) 86400, w/week(s) 604800,
    mon/month(s) 2592000, y/year(s) 31536000, and 1 (seconds) for
    every other string. *)
Definition multiplier (unit : string) : Z :=
  if str_in unit ["s"; "sec"; "second"; "seconds"] then 1
  else if str_in unit ["m"; "min"; "minute"; "minutes"] then 60
  else if str_in unit ["h"; "hr"; "hour"; "hours"] then 3600
  else if str_in unit ["d"; "day"; "days"] then 86400
  else if str_in unit ["w"; "week"; "weeks"] then 604800
  else if str_in unit ["mon"; "month"; "months"] then 2592000
  else if str_in unit ["y"; "year"; "years"] then 31536000
  else 1.

Definition duration (n : Z) (unit : string) : Z := n * multiplier unit.

(** A string with a prefix stripped: what is left after the prefix
    when the string starts with it, the string itself when not. *)
Definition strip_prefix (pre s : string) : string :=
  if String.prefix pre s then slice_from (String.length pre) s else s.

End Spec.

(** ** Rows

    The predicates without a subquery are conditions on one row of
    the joined tables.  [holds] evaluates them in SQL's three-valued
    logic; it is [None] on the constructs it does not cover
    (subqueries, [matches], [like], dates). *)

Module Rows.

Inductive sqlval : Type :=
| Null
| VStr (s : string)
| VInt (n : Z)
| VBool (b : bool).

Definition row : Type := table -> string -> sqlval.

Inductive truth : Type := TTrue | TFalse | TUnknown.

Definition of_bool (b : bool) : truth := if b then TTrue else TFalse.

Definition tnot (a : truth) : truth :=
  match a with TTrue => TFalse | TFalse => TTrue | TUnknown => TUnknown end.

Definition tand (a b : truth) : truth :=
  match a, b with
  | TFalse, _ | _, TFalse => TFalse
  | TTrue, TTrue => TTrue
  | _, _ => TUnknown
  end.

Definition tor (a b : truth) : truth :=
  match a, b with
  | TTrue, _ | _, TTrue => TTrue
  | TFalse, TFalse => TFalse
  | _, _ => TUnknown
  end.

Definition sql_eq (a b : sqlval) : option truth :=
  match a, b with
  | Null, _ | _, Null => Some TUnknown
  | VStr x, VStr y => Some (of_bool (String.eqb x y))
  | VInt x, VInt y => Some (of_bool (Z.eqb x y))
  | VBool x, VBool y => Some (of_bool (Bool.eqb x y))
  | _, _ => None
  end.

Definition scalar (r : row) (e : sqlexpr) : option sqlval :=
  match e with
  | Col t c => Some (r t c)
  | Str s => Some (VStr s)
  | Int n => Some (VInt n)
  | PyBool b => Some (VBool b)
  | _ => None
  end.

Definition lift2 (f : truth -> truth -> truth) (a b : option truth)
  : option truth :=
  match a, b with
  | Some x, Some y => Some (f x y)
  | _, _ => None
  end.

Fixpoint holds (r : row) (e : sqlexpr) : option truth :=
  match e with
  | PyBool b => Some (of_bool b)
  | Cmp OpEq a b =>
      match scalar r a, scalar r b with
      | Some x, Some y => sql_eq x y
      | _, _ => None
      end
  | Cmp OpNe a b =>
      match scalar r a, scalar r b with
      | Some x, Some y => option_map tnot (sql_eq x y)
      | _, _ => None
      end
  | and_ clauses => fold_right (fun c acc => lift2 tand (holds r c) acc) (Some TTrue) clauses
  | or_ clauses => fold_right (fun c acc => lift2 tor (holds r c) acc) (Some TFalse) clauses
  | not_ c => option_map tnot (holds r c)
  | _ => None
  end.

End Rows.
Export Rows.

(** ** Example inputs *)

Definition ctx_alice : context :=
  {| username := "alice"; utcnow := 1700000000; lexdata := "age:" |}.

(** A context whose current user is called [self]. *)
Definition ctx_self : context :=
  {| username := "self"; utcnow := 1700000000; lexdata := "owner:self" |}.

(** A joined row of the user whose username is literally [self]. *)
Definition row_self : row :=
  fun t c =>
    match t with
    | user_table =>
        if String.eqb c "username" then VStr "self"
        else if String.eqb c "email" then VStr "self@example.org"
        else if String.eqb c "name" then VStr "Self Same"
        else Null
    | _ => Null
    end.

(** A row of the file table whose status is null. *)
Definition row_placeholder : row :=
  fun t c =>
    match t with
    | file_table =>
        if String.eqb c "path" then VStr "setup.py"
        else if String.eqb c "old_path" then Null
        else Null
    | _ => Null
    end.


(** Which of the two forms a compiled [ref] or [branch] term has. *)
Definition is_pattern_match (e : sqlexpr) : bool :=
  match e with Func _ _ => true | _ => false end.

Definition is_equality (e : sqlexpr) : bool :=
  match e with Cmp OpEq _ _ => true | _ => false end.

(** The values [p_is_term] supports. *)
Definition is_values : list string :=
  ["reviewed"; "open"; "closed"; "submitted"; "merged"; "abandoned"; "owner";
   "starred"; "held"; "reviewer"; "watched"].


(** ** The grammar as yacc resolves it

    An operand is a term, a negated operand or a parenthesized
    sequence; a sequence is an operand, or an operand followed by a
    sequence, with a connective between them or nothing.  Each token
    sequence comes with the predicate the productions build for it. *)

Definition is_negation (t : token) : bool :=
  match t with NOT | NEG => true | _ => false end.

Definition connective_lexeme (t : token) : option string :=
  match t with AND lexeme | OR lexeme => Some lexeme | _ => None end.

Inductive grouping : Type := Operand | Sequence.

Inductive derives (ctx : context) : grouping -> list LexToken -> sqlexpr -> Prop :=
| derives_term ts a :
    term_value ctx (map tok ts) = Some (Ok a) ->
    derives ctx Operand ts a
| derives_negative t ts a :
    is_negation (tok t) = true ->
    derives ctx Operand ts a ->
    derives ctx Operand (t :: ts) (not_ a)
| derives_paren l ts r e :
    tok l = LPAREN -> tok r = RPAREN ->
    derives ctx Sequence ts e ->
    derives ctx Operand (l :: ts ++ [r]) e
| derives_operand ts a :
    derives ctx Operand ts a ->
    derives ctx Sequence ts a
| derives_list ts a rest b :
    derives ctx Operand ts a ->
    derives ctx Sequence rest b ->
    derives ctx Sequence (ts ++ rest) (and_ [a; b])
| derives_boolean ts a t lexeme rest b e :
    derives ctx Operand ts a ->
    connective_lexeme (tok t) = Some lexeme ->
    derives ctx Sequence rest b ->
    p_boolean_expr a lexeme b = Ok e ->
    derives ctx Sequence (ts ++ t :: rest) e.

(** Tokens after which an expression may start with nothing to
    reduce first: a parenthesis or a connective. *)
Definition opens (t : token) : bool :=
  match t with LPAREN | AND _ | OR _ => true | _ => false end.

(** A stack on which no rule is reduced when a token is shifted. *)
Definition quiet (stack : list sym) : bool :=
  match stack with
  | [] => true
  | SE _ :: _ => true
  | ST t :: _ => opens t
  end.

(** A stack on which an operand can start. *)
Definition ready (stack : list sym) : bool :=
  match stack with
  | [] => true
  | SE _ :: below => quiet below
  | ST t :: _ => opens t || is_negation t
  end.

(** The lookaheads that end a sequence: the end of the input and a
    closing parenthesis. *)
Definition closes (la : option token) : bool :=
  match la with
  | None | Some RPAREN => true
  | Some _ => false
  end.

(** ** Quoting

    The three kinds of string token differ by the quotes of the
    lexeme only; [unquote] forgets the kind. *)

Definition unquoted (t : token) : token :=
  match t with
  | SSTRING s | DSTRING s => USTRING s
  | _ => t
  end.

Definition unquote (t : LexToken) : LexToken :=
  {| tok := unquoted (tok t); lexpos := lexpos t |}.

Definition unquote_sym (s : sym) : sym :=
  match s with
  | ST t => ST (unquoted t)
  | SE e => SE e
  end.

Definition unquote_result (r : result (list sym)) : result (list sym) :=
  match r with
  | Ok stack => Ok (map unquote_sym stack)
  | Raise x => Raise x
  end.

Definition unquote_handle (h : option (result sqlexpr * list sym))
  : option (result sqlexpr * list sym) :=
  option_map (fun '(r, below) => (r, map unquote_sym below)) h.

(** ** Shapes of the compiled terms *)


(** [T.c.story_key == story_table.c.key] for a table [T] other than
    the story table. *)
Definition correlates (f : sqlexpr) : bool :=
  match f with
  | Cmp OpEq (Col t c) (Col story_table k) =>
      String.eqb c "story_key" && String.eqb k "key"
      && match t with story_table => false | _ => true end
  | _ => false
  end.

(** [story_table.c.key.in_(select([story_table.c.key]).where(and_(f, ...)))]
    with [f] the correlation of the related table with the story. *)
Definition is_membership (e : sqlexpr) : bool :=
  match e with
  | InSelect (Col story_table k) (Select [Col story_table k'] (Some (and_ (f :: _)))) =>
      String.eqb k "key" && String.eqb k' "key" && correlates f
  | _ => false
  end.

(** The operators of the membership terms. *)
Definition membership_operator (t : token) : bool :=
  match t with
  | OP_REVIEWER | OP_COMMIT | OP_PROJECT_KEY | OP_LABEL | OP_MESSAGE | OP_HAS => true
  | _ => false
  end.

(** The operators [label_re] can capture. *)
Definition label_operators : list string := [""; "<"; ">"; "="; "<="; ">="].

(** The operators whose string may be a pattern. *)
Definition pattern_operator (t : token) : bool :=
  match t with
  | OP_PROJECT | OP_BRANCH | OP_TAG | OP_REF | OP_FILE => true
  | _ => false
  end.

(** Whether [func.matches] occurs in an expression. *)
Fixpoint uses_matches (e : sqlexpr) : bool :=
  match e with
  | Func name args => String.eqb name "matches" || existsb uses_matches args
  | Concat l r | Cmp _ l r | InSelect l r => uses_matches l || uses_matches r
  | Like e' _ | InList e' _ | NotInList e' _ | not_ e' => uses_matches e'
  | Select cols where_ =>
      existsb uses_matches cols
      || match where_ with Some w => uses_matches w | None => false end
  | and_ clauses | or_ clauses => existsb uses_matches clauses
  | Col _ _ | Str _ | Int _ | PyBool _ | DateTimeSub _ _ => false
  end.

(** ** Where the other exceptions come from *)

Definition is_label_operator (t : token) : bool :=
  match t with OP_LABEL => true | _ => false end.

Definition is_generic_operator (t : token) : bool :=
  match t with OP _ => true | _ => false end.

Definition is_attribute_error (x : exn) : bool :=
  match x with AttributeError => true | _ => false end.

Definition is_builtin_syntax_error (x : exn) : bool :=
  match x with SyntaxError => true | _ => false end.

(** A result that is a value or an exception of the expected kinds. *)
Definition raises_only (expected : exn -> bool) {A} (r : result A) : Prop :=
  match r with
  | Ok _ => True
  | Raise x => expected x = true
  end.

(** A stack symbol whose token, if it is one, is allowed. *)
Definition sym_of (allowed : token -> bool) (s : sym) : Prop :=
  match s with
  | ST t => allowed t = true
  | SE _ => True
  end.

(** The results of a rule, for every argument. *)
Definition rule_raises_only (expected : exn -> bool) (rule : term_rule) : Prop :=
  match rule with
  | NumberString act => forall n u, raises_only expected (act n u)
  | NumberOnly act => forall n, raises_only expected (act n)
  | StringOnly act => forall s, raises_only expected (act s)
  | StringOrNumber act => forall a, raises_only expected (act a)
  | Bare act => raises_only expected act
  end.

(** The tokens of [owner:self], [status:open] and [limit:5]. *)
Definition owner_self_tokens : list LexToken :=
  [{| tok := OP_OWNER; lexpos := 0 |}; {| tok := USTRING "self"; lexpos := 6 |}].

Definition status_open_tokens : list LexToken :=
  [{| tok := OP_STATUS; lexpos := 11 |}; {| tok := USTRING "open"; lexpos := 18 |}].

Definition limit_tokens : list LexToken :=
  [{| tok := OP_LIMIT; lexpos := 23 |}; {| tok := NUMBER 5; lexpos := 29 |}].

Definition owner_self_predicate : sqlexpr :=
  Col user_table "username" == Str "alice".

Definition status_open_predicate : sqlexpr :=
  NotInList (Col story_table "status") ["MERGED"; "ABANDONED"].

(** * Properties of the grammar engine *)

Section Engine.

Variable ctx : context.

Lemma rule_token t rule :
  term_rule_of ctx t = Some rule ->
  starts_expression t = true /\ number_of t = None /\ p_string t = None
  /\ forall stack, paren_handle (ST t :: stack) = None.
Proof.
  destruct t; cbn; intros H; try discriminate; repeat split; try reflexivity;
    intros [|[?|?] [|[?|?] ?]]; reflexivity.
Qed.

Lemma number_token a n : number_of a = Some n -> a = NUMBER n.
Proof. destruct a; cbn; intros H; try discriminate. now injection H as <-. Qed.

Lemma string_token a s :
  p_string a = Some s ->
  term_rule_of ctx a = None /\ number_of a = None /\ is_string a = true.
Proof.
  unfold is_string. intros H. rewrite H.
  destruct a; cbn in *; try discriminate; auto.
Qed.

Lemma term_value_tokens ts r : term_value ctx ts = Some r -> term_tokens ctx ts r.
Proof.
  destruct ts as [|op [|a1 [|a2 [|? ?]]]]; cbn; try discriminate;
    destruct (term_rule_of ctx op) as [rule|] eqn:E; try discriminate.
  - destruct rule; try discriminate. intros H; injection H as <-. now constructor.
  - intros H. econstructor; eauto.
  - destruct rule; try discriminate. cbn.
    destruct (number_of a1) as [n|] eqn:E1; try discriminate.
    destruct (p_string a2) as [u|] eqn:E2; try discriminate.
    intros H; injection H as <-. apply number_token in E1 as ->. now constructor.
Qed.

Lemma term_starts ts r :
  term_value ctx (map tok ts) = Some r ->
  exists t0 ts', ts = t0 :: ts' /\ starts_expression (tok t0) = true.
Proof.
  intros H. apply term_value_tokens in H.
  destruct ts as [|t0 ts']; [inversion H|]. exists t0, ts'. split; [reflexivity|].
  inversion H; subst; eapply rule_token; eauto.
Qed.

Lemma one_argument_token a rule r :
  one_argument a rule = Some r ->
  term_rule_of ctx a = None /\
  match rule with
  | NumberOnly _ => is_number a = true
  | StringOnly _ => is_string a = true
  | StringOrNumber _ => is_string a || is_number a = true
  | _ => False
  end.
Proof.
  destruct rule; cbn; try discriminate.
  - destruct (number_of a) eqn:E; try discriminate. apply number_token in E as ->. auto.
  - destruct (p_string a) eqn:E; try discriminate. intros _.
    apply string_token in E. tauto.
  - destruct (number_of a) eqn:E.
    + apply number_token in E as ->. auto.
    + destruct (p_string a) eqn:E'; try discriminate. intros _.
      apply string_token in E' as (? & ? & ->). auto.
Qed.

Lemma handle_term ts r stack :
  term_value ctx (map tok ts) = Some r ->
  handle ctx (shifted ts stack) = Some (r, stack).
Proof.
  intros H. apply term_value_tokens in H. unfold shifted, handle.
  destruct ts as [|[op p0] [|[a1 p1] [|[a2 p2] [|? ?]]]];
    inversion H as [? ? Er|? ? ? ? Er E1|? ? ? ? ? Er E2]; subst;
    cbn [map tok rev app].
  - destruct (rule_token _ _ Er) as (_ & _ & _ & ->). cbn. now rewrite Er.
  - destruct (one_argument_token _ _ _ E1) as (Ha & _). cbn.
    now rewrite Ha, Er, E1.
  - destruct (string_token _ _ E2) as (Ha & _). cbn.
    rewrite Ha, Er. cbn. now rewrite E2.
Qed.

Lemma handle_waiting op rule stack :
  term_rule_of ctx op = Some rule ->
  (forall act, rule <> Bare act) ->
  handle ctx (ST op :: stack) = None.
Proof.
  intros E Hb. unfold handle. destruct (rule_token _ _ E) as (_ & _ & _ & ->).
  cbn. rewrite E. destruct rule; try reflexivity. now destruct (Hb act).
Qed.

Lemma reduce_waiting la stack op rule :
  term_rule_of ctx op = Some rule ->
  (forall act, rule <> Bare act) ->
  reduce ctx la (ST op :: stack) = Ok (ST op :: stack).
Proof.
  intros E Hb. unfold reduce. now rewrite (handle_waiting _ _ _ E Hb).
Qed.

Lemma parse_loop_shift stack0 stack t rest :
  reduce ctx (Some t) stack0 = Ok stack ->
  can_shift ctx (tok t) stack = true ->
  parse_loop ctx stack0 (t :: rest) = parse_loop ctx (ST (tok t) :: stack) rest.
Proof. intros H1 H2. cbn. now rewrite H1, H2. Qed.

(** The tokens of a term are shifted one after the other. *)
Lemma shift_term ts r stack0 stack rest :
  term_value ctx (map tok ts) = Some r ->
  reduce ctx (hd_error ts) stack0 = Ok stack ->
  (forall t, hd_error ts = Some t -> can_shift ctx (tok t) stack = true) ->
  parse_loop ctx stack0 (ts ++ rest) = parse_loop ctx (shifted ts stack) rest.
Proof.
  intros H Hred Hcan. apply term_value_tokens in H. unfold shifted.
  destruct ts as [|[op p0] [|[a1 p1] [|[a2 p2] [|? ?]]]];
    inversion H as [? ? Er|? ? ? ? Er E1|? ? ? ? ? Er E2]; subst;
    cbn [map tok rev app hd_error] in *;
    rewrite (parse_loop_shift _ _ _ _ Hred (Hcan _ eq_refl)); cbn [tok].
  - reflexivity.
  - pose proof (one_argument_token _ _ _ E1) as (Ha & Hk).
    apply parse_loop_shift.
    + apply reduce_waiting with (rule := rule); auto.
      intros act ->. exact Hk.
    + cbn. rewrite Er. destruct rule; try exact Hk; contradiction.
  - pose proof (string_token _ _ E2) as (Ha & Hn & Hs).
    rewrite (parse_loop_shift (ST op :: stack) (ST op :: stack)); cbn [tok].
    + apply parse_loop_shift.
      * unfold reduce, handle. cbn. rewrite Er. reflexivity.
      * cbn. rewrite Er. exact Hs.
    + apply reduce_waiting with (rule := NumberString act); auto. discriminate.
    + cbn. rewrite Er. reflexivity.
Qed.

Lemma reduce_term ts e stack la :
  term_value ctx (map tok ts) = Some (Ok e) ->
  follows_expression (option_map tok la) = true ->
  reduce ctx la (shifted ts stack) = reduce_top (option_map tok la) e stack.
Proof.
  intros H F. unfold reduce. rewrite (handle_term _ _ _ H). rewrite F. reflexivity.
Qed.

(** A query that is one term: the parser returns what the term's
    action returns. *)
Lemma parse_single_term ts r :
  term_value ctx (map tok ts) = Some r ->
  parse ctx ts = outcome_of r.
Proof.
  intros H. destruct (term_starts _ _ H) as (t0 & ts' & E & S0).
  unfold parse. rewrite <- (app_nil_r ts) at 1.
  rewrite (shift_term ts r [] [] [] H).
  - cbn [parse_loop]. unfold reduce. rewrite (handle_term _ _ _ H). cbn.
    destruct r as [e|[m| |]]; reflexivity.
  - rewrite E. reflexivity.
  - rewrite E. intros t [= <-]. exact S0.
Qed.

End Engine.

(** * Implicit and explicit conjunction *)

(** C1: for valid terms A and B, compiling the juxtaposition [A B]
    returns the conjunction [and_(a, b)] of their predicates, and
    compiling [A AND B] returns the same predicate. *)
Theorem juxtaposition_is_and ctx ta tb a b lexeme pos :
  term_value ctx (map tok ta) = Some (Ok a) ->
  term_value ctx (map tok tb) = Some (Ok b) ->
  lower lexeme = "and" ->
  parse ctx (ta ++ tb) = Returns (and_ [a; b]) /\
  parse ctx (ta ++ {| tok := AND lexeme; lexpos := pos |} :: tb)
  = parse ctx (ta ++ tb).
Proof.
  intros Ha Hb Hl.
  destruct (term_starts _ _ _ Ha) as (a0 & ta' & Ea & Sa).
  destruct (term_starts _ _ _ Hb) as (b0 & tb' & Eb & Sb).
  assert (Fb : follows_expression (Some (tok b0)) = true) by (cbn; now rewrite Sb).
  assert (J : parse ctx (ta ++ tb) = Returns (and_ [a; b])).
  { unfold parse.
    rewrite (shift_term ctx ta _ [] [] tb Ha).
    2: { rewrite Ea. reflexivity. }
    2: { rewrite Ea. intros t [= <-]. exact Sa. }
    rewrite <- (app_nil_r tb) at 1.
    rewrite (shift_term ctx tb _ _ [SE a] [] Hb).
    2: { rewrite Eb. cbn [hd_error]. rewrite (reduce_term ctx ta a [] (Some b0) Ha Fb).
         reflexivity. }
    2: { rewrite Eb. intros t [= <-]. cbn. now rewrite Sb. }
    cbn [parse_loop]. rewrite (reduce_term ctx tb b [SE a] None Hb eq_refl).
    reflexivity. }
  split; [exact J|]. rewrite J. unfold parse.
  rewrite (shift_term ctx ta _ [] [] _ Ha).
  2: { rewrite Ea. reflexivity. }
  2: { rewrite Ea. intros t [= <-]. exact Sa. }
  rewrite (parse_loop_shift ctx _ [SE a]).
  2: { rewrite (reduce_term ctx ta a []
                  (Some {| tok := AND lexeme; lexpos := pos |}) Ha eq_refl).
       reflexivity. }
  2: { reflexivity. }
  cbn [tok]. rewrite <- (app_nil_r tb).
  rewrite (shift_term ctx tb _ _ [ST (AND lexeme); SE a] [] Hb).
  2: { rewrite Eb. reflexivity. }
  2: { rewrite Eb. intros t [= <-]. cbn. exact Sb. }
  cbn [parse_loop].
  rewrite (reduce_term ctx tb b [ST (AND lexeme); SE a] None Hb eq_refl).
  cbn. unfold p_boolean_expr. rewrite Hl. reflexivity.
Qed.

(** * Precedence of negation *)

(** C2: for valid terms A and B, [NOT A OR B] compiles to
    [or_(not_(a), b)], which is not [not_(or_(a, b))]. *)
Theorem negation_binds_tighter ctx ta tb a b lexeme p1 p2 :
  term_value ctx (map tok ta) = Some (Ok a) ->
  term_value ctx (map tok tb) = Some (Ok b) ->
  lower lexeme = "or" ->
  parse ctx ({| tok := NOT; lexpos := p1 |} :: ta
             ++ {| tok := OR lexeme; lexpos := p2 |} :: tb)
  = Returns (or_ [not_ a; b]) /\
  or_ [not_ a; b] <> not_ (or_ [a; b]).
Proof.
  intros Ha Hb Hl. split; [|discriminate].
  destruct (term_starts _ _ _ Ha) as (a0 & ta' & Ea & Sa).
  destruct (term_starts _ _ _ Hb) as (b0 & tb' & Eb & Sb).
  unfold parse. rewrite (parse_loop_shift ctx [] []); try reflexivity.
  cbn [tok].
  rewrite (shift_term ctx ta _ _ [ST NOT] _ Ha).
  2: { rewrite Ea. reflexivity. }
  2: { rewrite Ea. intros t [= <-]. exact Sa. }
  rewrite (parse_loop_shift ctx _ [SE (not_ a)]).
  2: { rewrite (reduce_term ctx ta a [ST NOT]
                  (Some {| tok := OR lexeme; lexpos := p2 |}) Ha eq_refl).
       reflexivity. }
  2: { reflexivity. }
  cbn [tok]. rewrite <- (app_nil_r tb).
  rewrite (shift_term ctx tb _ _ [ST (OR lexeme); SE (not_ a)] [] Hb).
  2: { rewrite Eb. reflexivity. }
  2: { rewrite Eb. intros t [= <-]. exact Sb. }
  cbn [parse_loop].
  rewrite (reduce_term ctx tb b [ST (OR lexeme); SE (not_ a)] None Hb eq_refl).
  cbn. unfold p_boolean_expr. rewrite Hl. reflexivity.
Qed.

Lemma juxtaposition_is_and_witness :
  lower "AND" = "and" /\
  parse ctx_alice
    ([at0 OP_OWNER; at0 (USTRING "self")] ++ [at0 OP_STATUS; at0 (USTRING "open")])
  = Returns (and_ [Col user_table "username" == Str "alice";
                   NotInList (Col story_table "status") ["MERGED"; "ABANDONED"]]) /\
  parse ctx_alice
    ([at0 OP_OWNER; at0 (USTRING "self")]
     ++ {| tok := AND "AND"; lexpos := 11 |} :: [at0 OP_STATUS; at0 (USTRING "open")])
  = parse ctx_alice
    ([at0 OP_OWNER; at0 (USTRING "self")] ++ [at0 OP_STATUS; at0 (USTRING "open")]).
Proof.
  split; [reflexivity|].
  apply (juxtaposition_is_and ctx_alice
           [at0 OP_OWNER; at0 (USTRING "self")]
           [at0 OP_STATUS; at0 (USTRING "open")] _ _ "AND" 11%nat); reflexivity.
Defined.

Lemma negation_binds_tighter_witness :
  lower "OR" = "or" /\
  parse ctx_alice
    ({| tok := NOT; lexpos := 0 |} :: [at0 OP_STATUS; at0 (USTRING "open")]
     ++ {| tok := OR "OR"; lexpos := 16 |} :: [at0 OP_STATUS; at0 (USTRING "closed")])
  = Returns (or_ [not_ (NotInList (Col story_table "status") ["MERGED"; "ABANDONED"]);
                  InList (Col story_table "status") ["MERGED"; "ABANDONED"]]).
Proof.
  split; [reflexivity|].
  apply (negation_binds_tighter ctx_alice
           [at0 OP_STATUS; at0 (USTRING "open")]
           [at0 OP_STATUS; at0 (USTRING "closed")] _ _ "OR" 0%nat 16%nat); reflexivity.
Defined.

(** * Status terms *)

(** C3: [is:open] and [status:open] compile to the same predicate,
    [Story.status] not in [MERGED, ABANDONED]; [is:closed] and
    [status:closed] to [Story.status] in [MERGED, ABANDONED]. *)
Theorem is_status_identical ctx p1 p2 :
  p_is_term ctx "open" = p_status_term "open" /\
  p_is_term ctx "open"
  = Ok (NotInList (Col story_table "status") ["MERGED"; "ABANDONED"]) /\
  p_is_term ctx "closed" = p_status_term "closed" /\
  p_is_term ctx "closed"
  = Ok (InList (Col story_table "status") ["MERGED"; "ABANDONED"]) /\
  parse ctx [{| tok := OP_IS; lexpos := p1 |}; {| tok := USTRING "open"; lexpos := p2 |}]
  = parse ctx [{| tok := OP_STATUS; lexpos := p1 |};
               {| tok := USTRING "open"; lexpos := p2 |}] /\
  parse ctx [{| tok := OP_IS; lexpos := p1 |}; {| tok := USTRING "closed"; lexpos := p2 |}]
  = parse ctx [{| tok := OP_STATUS; lexpos := p1 |};
               {| tok := USTRING "closed"; lexpos := p2 |}].
Proof. repeat split. Qed.

(** * Age terms *)

Lemma age_to_delta_duration n unit :
  age_to_delta n unit = Spec.duration n unit.
Proof.
  cbv [age_to_delta Spec.duration Spec.multiplier str_in].
  repeat match goal with
         | |- context [String.eqb unit ?x] =>
             destruct (String.eqb_spec unit x) as [->|_]; [cbn; lia|]
         end.
  cbn. lia.
Qed.


(** * Label terms *)

(** The body of [p_label_term] for an operator the regular expression
    can capture: an equality for none and for [=], an inequality for
    [>=] and [<=], and no condition on the value for [<] and [>]. *)
Lemma label_value_filter_cases value :
  label_value_filter "=" value = [Col approval_table "value" == Int value] /\
  label_value_filter "<" value = [] /\
  label_value_filter ">" value = [].
Proof. repeat split. Qed.

(** With [<] the value is not compared at all, so the predicate
    differs from the one [=] gives. *)
Lemma label_strict_operator_counterexample :
  option_map g_operator (label_re_match "Code-Review<1") = Some "<" /\
  p_label_term ctx_alice "Code-Review<1"
  = Ok (InSelect (Col story_table "key")
          (select_story_keys
             [Col approval_table "story_key" == Col story_table "key";
              Col approval_table "category" == Str "Code-Review"])) /\
  p_label_term ctx_alice "Code-Review<1" <> p_label_term ctx_alice "Code-Review=1".
Proof.
  split; [reflexivity|]. split; [reflexivity|].
  vm_compute. discriminate.
Qed.

(** C5 (amended): when no operator is captured, the predicate
    compares [Approval.value] by equality with the integer, as it
    does for [=]. *)
Theorem label_default_operator ctx v args :
  label_re_match v = Some args ->
  g_operator args = "" ->
  p_label_term ctx v
  = Ok (InSelect (Col story_table "key")
          (select_story_keys
             ([Col approval_table "story_key" == Col story_table "key";
               Col approval_table "category" == Str (g_label args);
               Col approval_table "value" == Int (int_of_value (g_value args))]
              ++ label_user_filter ctx (g_user args))%list)) /\
  label_filters ctx args
  = label_filters ctx {| g_label := g_label args; g_operator := "=";
                         g_value := g_value args; g_user := g_user args |}.
Proof.
  intros Hm Ho. unfold p_label_term, label_filters. rewrite Hm, Ho. cbn.
  split; reflexivity.
Qed.

Lemma label_default_operator_witness :
  label_re_match "Code-Review+2"
  = Some {| g_label := "Code-Review"; g_operator := ""; g_value := "+2";
            g_user := None |} /\
  p_label_term ctx_alice "Code-Review+2"
  = Ok (InSelect (Col story_table "key")
          (select_story_keys
             [Col approval_table "story_key" == Col story_table "key";
              Col approval_table "category" == Str "Code-Review";
              Col approval_table "value" == Int 2])).
Proof.
  split; [reflexivity|].
  apply (label_default_operator ctx_alice "Code-Review+2"
           {| g_label := "Code-Review"; g_operator := ""; g_value := "+2";
              g_user := None |}); reflexivity.
Defined.

(** * Unsupported values *)

Lemma p_is_term_unsupported ctx v :
  str_in v is_values = false ->
  p_is_term ctx v
  = Raise (SearchSyntaxError ("Syntax error: is:" ++ v ++ " is not supported")).
Proof.
  cbv [is_values str_in p_is_term].
  repeat match goal with
         | |- context [String.eqb v ?x] =>
             destruct (String.eqb v x); [cbn; intros; discriminate|]
         end.
  reflexivity.
Qed.

(** C6: [has:v] for every [v] other than [draft], and [is:v] for every
    [v] outside the supported values, raise the structured error; no
    predicate is returned. *)
Theorem unsupported_values_fail ctx h i sh si p1 p2 :
  h <> "draft" ->
  str_in i is_values = false ->
  p_string sh = Some h ->
  p_string si = Some i ->
  p_has_term h
  = Raise (SearchSyntaxError ("Syntax error: has:" ++ h ++ " is not supported")) /\
  p_is_term ctx i
  = Raise (SearchSyntaxError ("Syntax error: is:" ++ i ++ " is not supported")) /\
  parse ctx [{| tok := OP_HAS; lexpos := p1 |}; {| tok := sh; lexpos := p2 |}]
  = Raises (SearchSyntaxError ("Syntax error: has:" ++ h ++ " is not supported")) /\
  parse ctx [{| tok := OP_IS; lexpos := p1 |}; {| tok := si; lexpos := p2 |}]
  = Raises (SearchSyntaxError ("Syntax error: is:" ++ i ++ " is not supported")).
Proof.
  intros Hh Hi Sh Si.
  assert (Eh : p_has_term h
               = Raise (SearchSyntaxError
                          ("Syntax error: has:" ++ h ++ " is not supported"))).
  { unfold p_has_term. destruct (String.eqb_spec h "draft"); [contradiction|reflexivity]. }
  pose proof (p_is_term_unsupported ctx i Hi) as Ei.
  repeat split; auto.
  - rewrite (parse_single_term ctx _ (p_has_term h)).
    + now rewrite Eh.
    + cbn. now rewrite Sh.
  - rewrite (parse_single_term ctx _ (p_is_term ctx i)).
    + now rewrite Ei.
    + cbn. now rewrite Si.
Qed.

Lemma unsupported_values_fail_witness :
  "star" <> "draft" /\ str_in "bogus" is_values = false /\
  p_has_term "star"
  = Raise (SearchSyntaxError "Syntax error: has:star is not supported") /\
  p_is_term ctx_alice "bogus"
  = Raise (SearchSyntaxError "Syntax error: is:bogus is not supported") /\
  parse ctx_alice [at0 OP_HAS; {| tok := USTRING "star"; lexpos := 4 |}]
  = Raises (SearchSyntaxError "Syntax error: has:star is not supported") /\
  parse ctx_alice [at0 OP_IS; {| tok := DSTRING "bogus"; lexpos := 4 |}]
  = Raises (SearchSyntaxError "Syntax error: is:bogus is not supported").
Proof.
  split; [discriminate|]. split; [reflexivity|].
  apply (unsupported_values_fail ctx_alice "star" "bogus"
           (USTRING "star") (DSTRING "bogus") 0%nat 4%nat);
    try reflexivity; discriminate.
Defined.

(** * Errors *)

Section Errors.

Variable ctx : context.


Lemma paren_handle_inv stack h :
  paren_handle stack = Some h ->
  exists e below,
    stack = ST RPAREN :: SE e :: ST LPAREN :: below /\ h = (p_paren_expr e, below).
Proof.
  destruct stack as [|[r|?] [|[?|e] [|[l|?] below]]]; cbn; try discriminate.
  destruct r; try discriminate; destruct l; try discriminate.
  intros [= <-]. eauto.
Qed.

Lemma two_arguments_inv a1 a2 rule r :
  two_arguments a1 a2 rule = Some r ->
  exists act n u,
    rule = NumberString act /\ a1 = NUMBER n /\ p_string a2 = Some u /\ r = act n u.
Proof.
  destruct rule; cbn; try discriminate.
  destruct (number_of a1) as [n|] eqn:E1; try discriminate.
  destruct (p_string a2) as [u|] eqn:E2; try discriminate.
  intros [= <-]. apply number_token in E1. eauto 8.
Qed.

(** A term handle is the reversed token sequence of a term. *)
Lemma term_handle_inv stack r below :
  term_handle ctx stack = Some (r, below) ->
  exists ts, stack = (rev (map ST ts) ++ below)%list /\ term_tokens ctx ts r.
Proof.
  destruct stack as [|[a|?] below0]; cbn; try discriminate.
  destruct (term_rule_of ctx a) as [rule|] eqn:Ea.
  - destruct rule; try discriminate. intros [= <- <-].
    exists [a]. split; [reflexivity|now constructor].
  - destruct below0 as [|[b|?] below1]; try discriminate.
    destruct (term_rule_of ctx b) as [rule|] eqn:Eb.
    + destruct (one_argument a rule) eqn:E1; cbn; try discriminate.
      intros [= <- <-]. exists [b; a]. split; [reflexivity|econstructor; eauto].
    + destruct below1 as [|[op|?] below2]; try discriminate.
      destruct (term_rule_of ctx op) as [rule|] eqn:Eo; try discriminate.
      destruct (two_arguments b a rule) eqn:E2; cbn; try discriminate.
      intros [= <- <-].
      destruct (two_arguments_inv _ _ _ _ E2) as (act & n & u & -> & -> & Hu & ->).
      exists [op; NUMBER n; a]. split; [reflexivity|now constructor].
Qed.









End Errors.

Lemma prefix_app n x : String.prefix n (n ++ x) = true.
Proof.
  induction n as [|c n IH]; cbn; [destruct x; reflexivity|].
  destruct (Ascii.ascii_dec c c); [exact IH|contradiction].
Qed.

Lemma contains_prefix n h : String.prefix n h = true -> contains n h = true.
Proof. destruct h; cbn [contains]; intros ->; reflexivity. Qed.

Lemma contains_here n x : contains n (n ++ x) = true.
Proof. apply contains_prefix, prefix_app. Qed.

Lemma contains_cons n c h : contains n h = true -> contains n (String c h) = true.
Proof. intros H. cbn [contains]. rewrite H. apply orb_true_r. Qed.

Lemma contains_app_r n a h : contains n h = true -> contains n (a ++ h) = true.
Proof. intros H. induction a as [|c a IH]; [exact H|]. now apply contains_cons. Qed.

(** The message of [p_error] at a token quotes the unconsumed input,
    the query and the offset. *)
Lemma p_error_message ctx t :
  exists msg,
    p_error ctx (Some t) = SearchSyntaxError msg /\
    contains (lexdata ctx) msg = true /\
    contains (slice_from (lexpos t) (lexdata ctx)) msg = true /\
    contains (str_of_nat (lexpos t)) msg = true.
Proof.
  eexists. split; [reflexivity|]. repeat split.
  - apply contains_app_r. apply contains_app_r with (a := String "034" _).
    apply contains_cons. apply contains_app_r. apply contains_cons.
    apply contains_here.
  - apply contains_app_r. cbn [append]. apply contains_cons, contains_here.
  - apply contains_app_r. apply contains_app_r with (a := String "034" _).
    apply contains_cons. apply contains_app_r. apply contains_app_r with (a := String "034" _).
    apply contains_cons. apply contains_app_r. apply contains_here.
Qed.




(** * File terms *)

(** C8: the third clause of a compiled [file] term is the Python
    value [True], not a condition on [File.status]: the term holds on
    a row whose status is null. *)
Theorem file_term_ignores_status :
  (forall v, exists paths, p_file_term v = Ok (and_ [paths; PyBool true])) /\
  p_file_term "setup.py"
  = Ok (and_ [or_ [Col file_table "path" == Str "setup.py";
                   Col file_table "old_path" == Str "setup.py"];
              PyBool true]) /\
  row_placeholder file_table "status" = Null /\
  holds row_placeholder
    (and_ [or_ [Col file_table "path" == Str "setup.py";
                Col file_table "old_path" == Str "setup.py"];
           PyBool true]) = Some TTrue /\
  parse ctx_alice [at0 OP_FILE; {| tok := USTRING "setup.py"; lexpos := 5 |}]
  = Returns (and_ [or_ [Col file_table "path" == Str "setup.py";
                        Col file_table "old_path" == Str "setup.py"];
                   PyBool true]).
Proof.
  split; [|repeat split].
  intros v. unfold p_file_term. destruct (startswith_char "^" v); eexists; reflexivity.
Qed.

(** * Ref terms *)

Lemma ref_prefix_not_pattern v :
  String.prefix "refs/heads/" v = true -> startswith_char "^" v = false.
Proof.
  intros H. destruct v as [|c v]; [reflexivity|]. cbn [startswith_char].
  destruct (Ascii.eqb_spec "^" c) as [<-|]; [|reflexivity].
  cbn in H. discriminate.
Qed.

(** A value without the prefix is cut all the same: [ref:master] is
    compared with the empty string. *)
Lemma ref_term_counterexample :
  startswith_char "^" "master" = false /\
  p_ref_term "master" = Ok (Col story_table "branch" == Str "") /\
  Spec.strip_prefix "refs/heads/" "master" = "master" /\
  p_ref_term "master"
  <> Ok (Col story_table "branch"
         == Str (Spec.strip_prefix "refs/heads/" "master")).
Proof. repeat split. discriminate. Qed.

(** C9 (amended): a value that starts with [refs/heads/] compiles to
    the equality of [Story.branch] with the rest of the value; a
    value that starts with [^] to the pattern match against
    [refs/heads/] + [Story.branch]; every value takes exactly one of
    the two forms. *)
Theorem ref_term_dispatch v w :
  String.prefix "refs/heads/" v = true ->
  startswith_char "^" w = true ->
  p_ref_term v
  = Ok (Col story_table "branch" == Str (Spec.strip_prefix "refs/heads/" v)) /\
  p_ref_term w
  = Ok (Func "matches"
          [Str w; Concat (Str "refs/heads/") (Col story_table "branch")]) /\
  (forall x e, p_ref_term x = Ok e ->
     is_pattern_match e = startswith_char "^" x /\
     is_equality e = negb (startswith_char "^" x)).
Proof.
  intros Hv Hw. repeat split.
  - unfold p_ref_term, Spec.strip_prefix.
    now rewrite (ref_prefix_not_pattern v Hv), Hv.
  - unfold p_ref_term. now rewrite Hw.
  - unfold p_ref_term in H. destruct (startswith_char "^" x);
      injection H as <-; reflexivity.
  - unfold p_ref_term in H. destruct (startswith_char "^" x);
      injection H as <-; reflexivity.
Qed.

Lemma ref_term_dispatch_witness :
  String.prefix "refs/heads/" "refs/heads/master" = true /\
  startswith_char "^" "^refs/heads/stable/.*" = true /\
  p_ref_term "refs/heads/master" = Ok (Col story_table "branch" == Str "master") /\
  p_ref_term "^refs/heads/stable/.*"
  = Ok (Func "matches"
          [Str "^refs/heads/stable/.*";
           Concat (Str "refs/heads/") (Col story_table "branch")]).
Proof.
  split; [reflexivity|]. split; [reflexivity|].
  destruct (ref_term_dispatch "refs/heads/master" "^refs/heads/stable/.*"
              eq_refl eq_refl) as (H1 & H2 & _).
  split; [exact H1|exact H2].
Defined.

(** * Owner terms *)

(** When the current user is called [self], [owner:self] matches the
    user whose username is literally [self]. *)
Lemma owner_self_counterexample :
  p_owner_term ctx_self "self" = Ok (Col user_table "username" == Str "self") /\
  row_self user_table "username" = VStr "self" /\
  holds row_self (Col user_table "username" == Str "self") = Some TTrue.
Proof. repeat split. Qed.

(** C10 (amended): [owner:self] compiles to the equality of
    [User.username] with the current username; no owner term compiles
    to the literal match on the string [self]; and unless the current
    user is called [self], [owner:self] does not match a user whose
    username is [self]. *)
Theorem owner_self_first ctx v r :
  username ctx <> "self" ->
  r user_table "username" = VStr "self" ->
  p_owner_term ctx "self" = Ok (Col user_table "username" == Str (username ctx)) /\
  p_owner_term ctx v <> Ok (user_literal "self") /\
  holds r (Col user_table "username" == Str (username ctx)) = Some TFalse.
Proof.
  intros Hu Hr. repeat split.
  - unfold p_owner_term. destruct (String.eqb_spec v "self") as [->|Hv].
    + discriminate.
    + intros [= E]. contradiction.
  - cbn [holds scalar]. rewrite Hr. cbn [sql_eq].
    destruct (String.eqb_spec "self" (username ctx)) as [E|_].
    + now destruct Hu.
    + reflexivity.
Qed.

Lemma owner_self_first_witness :
  username ctx_alice <> "self" /\
  row_self user_table "username" = VStr "self" /\
  p_owner_term ctx_alice "self" = Ok (Col user_table "username" == Str "alice") /\
  p_owner_term ctx_alice "bob" <> Ok (user_literal "self") /\
  holds row_self (Col user_table "username" == Str "alice") = Some TFalse.
Proof.
  split; [discriminate|]. split; [reflexivity|].
  apply (owner_self_first ctx_alice "bob" row_self); [discriminate|reflexivity].
Defined.

(** * The grammar as yacc resolves it *)

Section Resolved.

Variable ctx : context.

Lemma shiftable_actions t :
  starts_expression t || is_connective t = true ->
  action_on (Some t) None = Shift /\
  (forall lexeme, action_on (Some t) (Some (AND lexeme)) = Shift) /\
  (forall lexeme, action_on (Some t) (Some (OR lexeme)) = Shift).
Proof. destruct t; cbn; intros H; try discriminate; repeat split. Qed.

Lemma negation_reduces la n :
  follows_expression la = true -> is_negation n = true ->
  action_on la (Some n) = Reduce.
Proof.
  destruct n; try discriminate. all: intros F _; destruct la as [t|]; [|reflexivity];
    destruct t; try discriminate; reflexivity.
Qed.

Lemma closing_reduces la rightmost :
  closes la = true -> action_on la rightmost = Reduce.
Proof. destruct la as [t|]; [|reflexivity]. destruct t; try discriminate. reflexivity. Qed.

Lemma quiet_reduce_top stack t e :
  quiet stack = true ->
  starts_expression t || is_connective t = true ->
  reduce_top (Some t) e stack = Ok (SE e :: stack).
Proof.
  intros Q S. destruct (shiftable_actions t S) as (A1 & A2 & A3).
  destruct stack as [|[t0|e0] below]; [reflexivity| |].
  - destruct t0; try discriminate; cbn [reduce_top].
    + destruct below as [|[?|?] ?]; try reflexivity. now rewrite A2.
    + destruct below as [|[?|?] ?]; try reflexivity. now rewrite A3.
    + reflexivity.
  - cbn [reduce_top]. now rewrite A1.
Qed.

Lemma paren_handle_other t stack :
  match t with RPAREN => False | _ => True end ->
  paren_handle (ST t :: stack) = None.
Proof.
  intros H. destruct stack as [|[?|?] [|[?|?] ?]]; try reflexivity.
  destruct t; try reflexivity. contradiction.
Qed.

Lemma term_handle_other t stack :
  term_rule_of ctx t = None -> number_of t = None -> p_string t = None ->
  term_handle ctx (ST t :: stack) = None.
Proof.
  intros R N P. cbn [term_handle]. rewrite R.
  destruct stack as [|[b|?] below1]; try reflexivity.
  destruct (term_rule_of ctx b) as [rule|].
  - destruct rule; cbn; rewrite ?N, ?P; reflexivity.
  - destruct below1 as [|[op|?] below2]; try reflexivity.
    destruct (term_rule_of ctx op) as [rule|]; [|reflexivity].
    destruct rule; cbn; try reflexivity.
    destruct (number_of b); [|reflexivity]. now rewrite P.
Qed.

Lemma handle_other t stack :
  opens t || is_negation t = true -> handle ctx (ST t :: stack) = None.
Proof.
  intros H. unfold handle. rewrite paren_handle_other, term_handle_other;
    destruct t; try discriminate; try reflexivity; exact I.
Qed.

Lemma ready_shift stack t :
  ready stack = true -> starts_expression (tok t) = true ->
  reduce ctx (Some t) stack = Ok stack /\ can_shift ctx (tok t) stack = true.
Proof.
  intros R S. destruct stack as [|[t0|e0] below].
  - split; [reflexivity|exact S].
  - cbn in R. unfold reduce. rewrite (handle_other _ _ R). split; [reflexivity|].
    destruct t0; try discriminate; cbn; exact S.
  - cbn in R. unfold reduce, handle. cbn [paren_handle term_handle bind option_map].
    assert (F : follows_expression (Some (tok t)) = true) by (cbn; now rewrite S).
    rewrite F. split.
    + apply quiet_reduce_top; [exact R|now rewrite S].
    + cbn. now rewrite S.
Qed.

(** The stack and the reductions after the tokens of an operand or of
    a sequence.  [stack0] is the stack the tokens are met with, and
    [stack] what a first token leaves of it. *)
Lemma derives_parse_loop g ts e :
  derives ctx g ts e ->
  forall stack0 stack rest,
    (forall t, starts_expression (tok t) = true ->
       reduce ctx (Some t) stack0 = Ok stack /\ can_shift ctx (tok t) stack = true) ->
    (g = Sequence -> quiet stack = true) ->
    exists stack',
      parse_loop ctx stack0 (ts ++ rest) = parse_loop ctx stack' rest /\
      forall la,
        follows_expression (option_map tok la) = true ->
        (g = Sequence -> closes (option_map tok la) = true) ->
        reduce ctx la stack' = reduce_top (option_map tok la) e stack.
Proof.
  induction 1 as [ts a Ht|t ts a Hn _ IH|l ts r e Hl Hr _ IH|ts a _ IH
                 |ts a more b _ IHa _ IHb|ts a t lexeme more b e _ IHa Hc _ IHb Hb];
    intros stack0 stack rest R Q.
  - destruct (term_starts _ _ _ Ht) as (t0 & ts' & E & S0).
    exists (shifted ts stack). split.
    + apply (shift_term ctx ts (Ok a)); [exact Ht| |]; rewrite E.
      * now apply R.
      * intros t [= <-]. now apply R.
    + intros la F _. now apply reduce_term.
  - assert (S : starts_expression (tok t) = true)
      by (destruct (tok t); try discriminate; reflexivity).
    destruct (R t S) as (R1 & R2).
    destruct (IH (ST (tok t) :: stack) (ST (tok t) :: stack) rest)
      as (stack' & P & Hred).
    + intros t' S'. apply ready_shift; [|exact S']. cbn. now rewrite Hn, orb_true_r.
    + discriminate.
    + exists stack'. split.
      * cbn [app]. rewrite (parse_loop_shift ctx _ _ _ _ R1 R2). exact P.
      * intros la F _. rewrite (Hred la F); [|discriminate].
        pose proof (negation_reduces _ _ F Hn) as A.
        destruct (tok t); try discriminate; cbn [reduce_top]; rewrite A; reflexivity.
  - assert (S : starts_expression (tok l) = true) by now rewrite Hl.
    destruct (R l S) as (R1 & R2).
    destruct (IH (ST LPAREN :: stack) (ST LPAREN :: stack) (r :: rest))
      as (stack' & P & Hred).
    + intros t' S'. now apply ready_shift.
    + reflexivity.
    + exists (ST RPAREN :: SE e :: ST LPAREN :: stack). split.
      * cbn [app]. rewrite (parse_loop_shift ctx _ _ _ _ R1 R2), Hl.
        rewrite <- app_assoc. cbn [app]. rewrite P.
        assert (Hr' : reduce ctx (Some r) stack' = Ok (SE e :: ST LPAREN :: stack)).
        { rewrite Hred; cbn [option_map]; rewrite Hr; reflexivity. }
        rewrite (parse_loop_shift ctx _ _ _ _ Hr'); rewrite Hr; reflexivity.
      * intros la F _. unfold reduce, handle. cbn [paren_handle]. now rewrite F.
  - destruct (IH stack0 stack rest R) as (stack' & P & Hred); [discriminate|].
    exists stack'. split; [exact P|]. intros la F _. apply Hred; [exact F|discriminate].
  - specialize (Q eq_refl).
    destruct (IHa stack0 stack (more ++ rest)%list R) as (s1 & P1 & H1); [discriminate|].
    destruct (IHb s1 (SE a :: stack) rest) as (s2 & P2 & H2).
    + intros t S. split.
      * rewrite H1; cbn [option_map]; [|cbn; now rewrite S|discriminate].
        apply quiet_reduce_top; [exact Q|now rewrite S].
      * cbn. now rewrite S.
    + reflexivity.
    + exists s2. split.
      * rewrite <- app_assoc, P1. exact P2.
      * intros la F C. specialize (C eq_refl). rewrite (H2 la F (fun _ => C)).
        cbn [reduce_top]. now rewrite (closing_reduces _ None C).
  - specialize (Q eq_refl).
    assert (St : is_connective (tok t) = true)
      by (destruct (tok t); try discriminate; reflexivity).
    destruct (IHa stack0 stack (t :: more ++ rest)%list R) as (s1 & P1 & H1);
      [discriminate|].
    assert (H1t : reduce ctx (Some t) s1 = Ok (SE a :: stack)).
    { rewrite H1; cbn [option_map]; [|cbn; now rewrite St, orb_true_r|discriminate].
      apply quiet_reduce_top; [exact Q|now rewrite St, orb_true_r]. }
    destruct (IHb (ST (tok t) :: SE a :: stack) (ST (tok t) :: SE a :: stack) rest)
      as (s2 & P2 & H2).
    + intros t' S'. apply ready_shift; [|exact S'].
      destruct (tok t); try discriminate; reflexivity.
    + destruct (tok t); try discriminate; reflexivity.
    + exists s2. split.
      * rewrite <- app_assoc. cbn [app]. rewrite P1.
        rewrite (parse_loop_shift ctx _ _ _ _ H1t); [exact P2|].
        cbn. now rewrite St, orb_true_r.
      * intros la F C. specialize (C eq_refl). rewrite (H2 la F (fun _ => C)).
        destruct (tok t); try discriminate; injection Hc as ->; cbn [reduce_top];
          rewrite (closing_reduces _ _ C), Hb; reflexivity.
Qed.

(** Every sequence of the resolved grammar compiles to its predicate. *)
Theorem derives_parse ts e :
  derives ctx Sequence ts e -> parse ctx ts = Returns e.
Proof.
  intros D.
  destruct (derives_parse_loop _ _ _ D [] [] []) as (stack' & P & H).
  - intros t S. now apply ready_shift.
  - reflexivity.
  - unfold parse. rewrite <- (app_nil_r ts), P. cbn [parse_loop].
    rewrite (H None eq_refl (fun _ => eq_refl)). reflexivity.
Qed.

End Resolved.

(** X1: a token sequence of the resolved grammar compiles to the
    predicate of its derivation, so every derivation of it has the
    same predicate. *)
Theorem resolved_grammar_sound ctx ts e :
  derives ctx Sequence ts e ->
  parse ctx ts = Returns e /\
  forall e', derives ctx Sequence ts e' -> e' = e.
Proof.
  intros D. pose proof (derives_parse ctx ts e D) as P. split; [exact P|].
  intros e' D'. apply derives_parse in D'. rewrite P in D'. now injection D'.
Qed.

Lemma resolved_grammar_sound_witness :
  parse ctx_alice
    [at0 NOT; at0 LPAREN; at0 OP_STATUS; at0 (USTRING "open"); at0 (OR "or");
     at0 OP_STORY; at0 (NUMBER 7); at0 RPAREN; at0 OP_LIMIT; at0 (NUMBER 5)]
  = Returns
      (and_ [not_ (or_ [NotInList (Col story_table "status") ["MERGED"; "ABANDONED"];
                        Col story_table "id" == Int 7]);
             PyBool true]).
Proof.
  refine (proj1 (resolved_grammar_sound ctx_alice _ _ _)).
  apply (derives_list ctx_alice
           [at0 NOT; at0 LPAREN; at0 OP_STATUS; at0 (USTRING "open");
            at0 (OR "or"); at0 OP_STORY; at0 (NUMBER 7); at0 RPAREN]
           (not_ (or_ [NotInList (Col story_table "status") ["MERGED"; "ABANDONED"];
                       Col story_table "id" == Int 7]))
           [at0 OP_LIMIT; at0 (NUMBER 5)] (PyBool true)).
  - apply derives_negative; [reflexivity|].
    apply (derives_paren ctx_alice (at0 LPAREN)
             [at0 OP_STATUS; at0 (USTRING "open"); at0 (OR "or");
              at0 OP_STORY; at0 (NUMBER 7)] (at0 RPAREN)); try reflexivity.
    apply (derives_boolean ctx_alice [at0 OP_STATUS; at0 (USTRING "open")]
             (NotInList (Col story_table "status") ["MERGED"; "ABANDONED"])
             (at0 (OR "or")) "or" [at0 OP_STORY; at0 (NUMBER 7)]
             (Col story_table "id" == Int 7));
      try reflexivity.
    + apply derives_term. reflexivity.
    + apply derives_operand, derives_term. reflexivity.
  - apply derives_operand, derives_term. reflexivity.
Defined.

Section Grouping.

Variable ctx : context.
Variables ta tb tc : list LexToken.
Variables a b c : sqlexpr.
Hypothesis Ha : term_value ctx (map tok ta) = Some (Ok a).
Hypothesis Hb : term_value ctx (map tok tb) = Some (Ok b).
Hypothesis Hc : term_value ctx (map tok tc) = Some (Ok c).

Let Da := derives_term ctx ta a Ha.
Let Db := derives_term ctx tb b Hb.
Let Dc := derives_term ctx tc c Hc.

(** X2: three juxtaposed terms group to the right:
    [A B C] compiles to [and_(a, and_(b, c))]. *)
Theorem juxtaposition_groups_right :
  parse ctx (ta ++ tb ++ tc) = Returns (and_ [a; and_ [b; c]]).
Proof.
  apply derives_parse.
  apply derives_list; [exact Da|].
  apply derives_list; [exact Db|]. apply derives_operand, Dc.
Qed.

(** X3: [AND] and [OR] have no precedence over each other and group
    to the right: [A AND B OR C] is [and_(a, or_(b, c))] and
    [A OR B AND C] is [or_(a, and_(b, c))]. *)
Theorem connectives_group_right land lor p1 p2 :
  lower land = "and" -> lower lor = "or" ->
  parse ctx (ta ++ {| tok := AND land; lexpos := p1 |}
                :: tb ++ {| tok := OR lor; lexpos := p2 |} :: tc)
  = Returns (and_ [a; or_ [b; c]]) /\
  parse ctx (ta ++ {| tok := OR lor; lexpos := p1 |}
                :: tb ++ {| tok := AND land; lexpos := p2 |} :: tc)
  = Returns (or_ [a; and_ [b; c]]).
Proof.
  intros Hand Hor.
  assert (Eand : forall x y, p_boolean_expr x land y = Ok (and_ [x; y]))
    by (intros; unfold p_boolean_expr; now rewrite Hand).
  assert (Eor : forall x y, p_boolean_expr x lor y = Ok (or_ [x; y]))
    by (intros; unfold p_boolean_expr; now rewrite Hor).
  split; apply derives_parse.
  - eapply derives_boolean; [exact Da|reflexivity| |apply Eand].
    eapply derives_boolean; [exact Db|reflexivity| |apply Eor].
    apply derives_operand, Dc.
  - eapply derives_boolean; [exact Da|reflexivity| |apply Eor].
    eapply derives_boolean; [exact Db|reflexivity| |apply Eand].
    apply derives_operand, Dc.
Qed.

(** X4: parentheses group: [( A OR B ) AND C] compiles to
    [and_(or_(a, b), c)], and [NOT ( A OR B )] to [not_(or_(a, b))]. *)
Theorem parentheses_group land lor pl pr p1 p2 pn :
  lower land = "and" -> lower lor = "or" ->
  parse ctx (({| tok := LPAREN; lexpos := pl |}
                :: (ta ++ {| tok := OR lor; lexpos := p1 |} :: tb)
                ++ [{| tok := RPAREN; lexpos := pr |}])
             ++ {| tok := AND land; lexpos := p2 |} :: tc)
  = Returns (and_ [or_ [a; b]; c]) /\
  parse ctx ({| tok := NOT; lexpos := pn |}
               :: {| tok := LPAREN; lexpos := pl |}
               :: (ta ++ {| tok := OR lor; lexpos := p1 |} :: tb)
               ++ [{| tok := RPAREN; lexpos := pr |}])
  = Returns (not_ (or_ [a; b])).
Proof.
  intros Hand Hor.
  assert (Eand : forall x y, p_boolean_expr x land y = Ok (and_ [x; y]))
    by (intros; unfold p_boolean_expr; now rewrite Hand).
  assert (Eor : forall x y, p_boolean_expr x lor y = Ok (or_ [x; y]))
    by (intros; unfold p_boolean_expr; now rewrite Hor).
  assert (Dp : derives ctx Operand
                 ({| tok := LPAREN; lexpos := pl |}
                    :: (ta ++ {| tok := OR lor; lexpos := p1 |} :: tb)
                    ++ [{| tok := RPAREN; lexpos := pr |}]) (or_ [a; b])).
  { apply derives_paren; try reflexivity.
    eapply derives_boolean; [exact Da|reflexivity| |apply Eor].
    apply derives_operand, Db. }
  split; apply derives_parse.
  - eapply derives_boolean; [exact Dp|reflexivity| |apply Eand].
    apply derives_operand, Dc.
  - apply derives_operand, derives_negative; [reflexivity|exact Dp].
Qed.

(** X5: a negation covers the next operand only, and [NEG] is [NOT]:
    [NOT A B] compiles to [and_(not_(a), b)], a doubled negation to
    [not_(not_(a))], and [NEG A] to what [NOT A] compiles to. *)
Theorem negation_scope n1 n2 p1 p2 :
  is_negation n1 = true -> is_negation n2 = true ->
  parse ctx ({| tok := n1; lexpos := p1 |} :: ta ++ tb)
  = Returns (and_ [not_ a; b]) /\
  parse ctx ({| tok := n1; lexpos := p1 |} :: {| tok := n2; lexpos := p2 |} :: ta)
  = Returns (not_ (not_ a)) /\
  parse ctx ({| tok := NEG; lexpos := p1 |} :: ta)
  = parse ctx ({| tok := NOT; lexpos := p1 |} :: ta).
Proof.
  intros H1 H2. repeat split.
  - apply derives_parse.
    apply (derives_list ctx ({| tok := n1; lexpos := p1 |} :: ta) _ tb b).
    + apply derives_negative; [exact H1|exact Da].
    + apply derives_operand, Db.
  - apply derives_parse, derives_operand.
    apply derives_negative; [exact H1|]. apply derives_negative; [exact H2|exact Da].
  - rewrite (derives_parse ctx _ (not_ a)), (derives_parse ctx _ (not_ a));
      [reflexivity| |]; apply derives_operand, derives_negative; try reflexivity; exact Da.
Qed.

End Grouping.

(** * Connectives and incomplete queries *)

Section Failures.

Variable ctx : context.

Lemma parse_outcome ts : parse ctx ts = outcome_of (parse_loop ctx [] ts).
Proof. reflexivity. Qed.

Lemma enters_empty t :
  starts_expression (tok t) = true ->
  reduce ctx (Some t) [] = Ok [] /\ can_shift ctx (tok t) [] = true.
Proof. intros S. now apply ready_shift. Qed.

(** X6: the connective is chosen by the lexeme of the token, in any
    letter case, not by its kind; a lexeme that is neither [and] nor
    [or] raises the structured error. *)
Theorem connective_by_lexeme ta tb a b t lexeme :
  term_value ctx (map tok ta) = Some (Ok a) ->
  term_value ctx (map tok tb) = Some (Ok b) ->
  connective_lexeme (tok t) = Some lexeme ->
  parse ctx (ta ++ t :: tb) = outcome_of (p_boolean_expr a lexeme b) /\
  (lower lexeme = "and" -> parse ctx (ta ++ t :: tb) = Returns (and_ [a; b])) /\
  (lower lexeme = "or" -> parse ctx (ta ++ t :: tb) = Returns (or_ [a; b])) /\
  (lower lexeme <> "and" -> lower lexeme <> "or" ->
   parse ctx (ta ++ t :: tb)
   = Raises (SearchSyntaxError ("Boolean " ++ lexeme ++ " not recognized"))).
Proof.
  intros Ha Hb Hc.
  assert (St : is_connective (tok t) = true)
    by (destruct (tok t); try discriminate; reflexivity).
  assert (P : parse ctx (ta ++ t :: tb) = outcome_of (p_boolean_expr a lexeme b)).
  { rewrite parse_outcome.
    destruct (derives_parse_loop ctx Operand ta a (derives_term ctx ta a Ha)
                [] [] (t :: tb) enters_empty) as (s1 & P1 & H1); [discriminate|].
    rewrite P1.
    assert (R1 : reduce ctx (Some t) s1 = Ok [SE a]).
    { rewrite H1; [reflexivity|cbn; now rewrite St, orb_true_r|discriminate]. }
    rewrite (parse_loop_shift ctx _ _ _ _ R1); [|cbn; now rewrite St, orb_true_r].
    destruct (derives_parse_loop ctx Operand tb b (derives_term ctx tb b Hb)
                [ST (tok t); SE a] [ST (tok t); SE a] [])
      as (s2 & P2 & H2); [|discriminate|].
    { intros t' S'. apply ready_shift; [|exact S'].
      destruct (tok t); try discriminate; reflexivity. }
    rewrite <- (app_nil_r tb), P2. cbn [parse_loop].
    rewrite (H2 None eq_refl); [|discriminate].
    destruct (tok t); try discriminate; injection Hc as ->; cbn [reduce_top action_on];
      unfold p_boolean_expr;
      destruct (String.eqb (lower lexeme) "and"); try reflexivity;
      destruct (String.eqb (lower lexeme) "or"); reflexivity. }
  split; [exact P|]. rewrite P. unfold p_boolean_expr. repeat split.
  - intros ->. reflexivity.
  - intros ->. reflexivity.
  - intros N1 N2.
    destruct (String.eqb_spec (lower lexeme) "and"); [contradiction|].
    destruct (String.eqb_spec (lower lexeme) "or"); [contradiction|]. reflexivity.
Qed.

(** After a sequence, a connective finds an expression on top of the
    stack. *)
Lemma sequence_then_connective g ts e :
  derives ctx g ts e -> g = Sequence ->
  forall stack0 stack rest,
    (forall t, starts_expression (tok t) = true ->
       reduce ctx (Some t) stack0 = Ok stack /\ can_shift ctx (tok t) stack = true) ->
    quiet stack = true ->
    exists stack',
      parse_loop ctx stack0 (ts ++ rest) = parse_loop ctx stack' rest /\
      forall t, is_connective (tok t) = true ->
        exists x below, reduce ctx (Some t) stack' = Ok (SE x :: below).
Proof.
  induction 1 as [| | |ts a Da _|ts a more b Da _ _ IHb
                 |ts a t lexeme more b e Da _ Hc _ IHb Hb];
    intros G stack0 stack rest R Q; try discriminate.
  - destruct (derives_parse_loop ctx Operand ts a Da stack0 stack rest R)
      as (s1 & P1 & H1); [discriminate|].
    exists s1. split; [exact P1|]. intros t St. exists a, stack.
    rewrite H1; [|cbn; now rewrite St, orb_true_r|discriminate].
    apply quiet_reduce_top; [exact Q|now rewrite St, orb_true_r].
  - destruct (derives_parse_loop ctx Operand ts a Da stack0 stack (more ++ rest)%list R)
      as (s1 & P1 & H1); [discriminate|].
    destruct (IHb eq_refl s1 (SE a :: stack) rest) as (s2 & P2 & H2).
    + intros t S. split.
      * rewrite H1; cbn [option_map]; [|cbn; now rewrite S|discriminate].
        apply quiet_reduce_top; [exact Q|now rewrite S].
      * cbn. now rewrite S.
    + reflexivity.
    + exists s2. split; [|exact H2]. rewrite <- app_assoc, P1. exact P2.
  - assert (St : is_connective (tok t) = true)
      by (destruct (tok t); try discriminate; reflexivity).
    destruct (derives_parse_loop ctx Operand ts a Da stack0 stack
                (t :: more ++ rest)%list R) as (s1 & P1 & H1); [discriminate|].
    assert (H1t : reduce ctx (Some t) s1 = Ok (SE a :: stack)).
    { rewrite H1; cbn [option_map]; [|cbn; now rewrite St, orb_true_r|discriminate].
      apply quiet_reduce_top; [exact Q|now rewrite St, orb_true_r]. }
    destruct (IHb eq_refl (ST (tok t) :: SE a :: stack) (ST (tok t) :: SE a :: stack) rest)
      as (s2 & P2 & H2).
    + intros t' S'. apply ready_shift; [|exact S'].
      destruct (tok t); try discriminate; reflexivity.
    + destruct (tok t); try discriminate; reflexivity.
    + exists s2. split; [|exact H2].
      rewrite <- app_assoc. cbn [app]. rewrite P1.
      rewrite (parse_loop_shift ctx _ _ _ _ H1t); [exact P2|].
      cbn. now rewrite St, orb_true_r.
Qed.

(** X7: a query that stops where more must follow fails with the
    end-of-input error: the empty query, a sequence with a connective
    after it, a sequence after a parenthesis that is not closed, and
    an operator without its argument. *)
Theorem incomplete_query ts e t l op rule :
  derives ctx Sequence ts e ->
  is_connective (tok t) = true ->
  tok l = LPAREN ->
  term_rule_of ctx (tok op) = Some rule ->
  (forall act, rule <> Bare act) ->
  parse ctx [] = Raises (SearchSyntaxError "Syntax error: EOF in search string") /\
  parse ctx (ts ++ [t])
  = Raises (SearchSyntaxError "Syntax error: EOF in search string") /\
  parse ctx (l :: ts)
  = Raises (SearchSyntaxError "Syntax error: EOF in search string") /\
  parse ctx [op]
  = Raises (SearchSyntaxError "Syntax error: EOF in search string").
Proof.
  intros D St Hl Hr Hb. split; [reflexivity|]. split; [|split].
  - rewrite parse_outcome.
    destruct (sequence_then_connective Sequence ts e D eq_refl [] [] [t] enters_empty
                eq_refl) as (s1 & P1 & H1).
    rewrite P1. destruct (H1 t St) as (x & below & R1).
    rewrite (parse_loop_shift ctx _ _ _ _ R1); [|cbn; now rewrite St, orb_true_r].
    cbn [parse_loop]. unfold reduce. rewrite handle_other.
    + reflexivity.
    + destruct (tok t); try discriminate; reflexivity.
  - rewrite parse_outcome.
    assert (S : starts_expression (tok l) = true) by now rewrite Hl.
    destruct (enters_empty l S) as (R1 & R2).
    rewrite (parse_loop_shift ctx _ _ _ _ R1 R2), Hl.
    destruct (derives_parse_loop ctx Sequence ts e D [ST LPAREN] [ST LPAREN] [])
      as (s2 & P2 & H2); [|reflexivity|].
    { intros t' S'. now apply ready_shift. }
    rewrite <- (app_nil_r ts), P2. cbn [parse_loop].
    rewrite (H2 None eq_refl (fun _ => eq_refl)). reflexivity.
  - rewrite parse_outcome.
    destruct (rule_token ctx _ _ Hr) as (S & _).
    destruct (enters_empty op S) as (R1 & R2).
    rewrite (parse_loop_shift ctx _ _ _ _ R1 R2). cbn [parse_loop].
    rewrite (reduce_waiting ctx None [] _ _ Hr Hb). reflexivity.
Qed.

(** X8: a query whose first token cannot begin an expression (a bare
    string or number, a connective, a closing parenthesis) is
    rejected at that token, whatever follows; the error quotes the
    query and the offset of the token. *)
Theorem bare_value_rejected t rest :
  starts_expression (tok t) = false ->
  parse ctx (t :: rest) = Raises (p_error ctx (Some t)) /\
  exists msg,
    parse ctx (t :: rest) = Raises (SearchSyntaxError msg) /\
    contains (lexdata ctx) msg = true /\
    contains (str_of_nat (lexpos t)) msg = true.
Proof.
  intros S.
  assert (P : parse ctx (t :: rest) = Raises (p_error ctx (Some t))).
  { rewrite parse_outcome. cbn [parse_loop].
    change (reduce ctx (Some t) []) with (@Ok (list sym) []).
    cbn [can_shift]. now rewrite S. }
  split; [exact P|]. rewrite P.
  destruct (p_error_message ctx t) as (msg & E & C1 & _ & C3).
  exists msg. now rewrite E.
Qed.

(** X9: a closing parenthesis that closes nothing is rejected at its
    own offset, whatever follows. *)
Theorem unmatched_parenthesis ts e r rest :
  derives ctx Sequence ts e ->
  tok r = RPAREN ->
  parse ctx (ts ++ r :: rest) = Raises (p_error ctx (Some r)).
Proof.
  intros D Hr. rewrite parse_outcome.
  destruct (derives_parse_loop ctx Sequence ts e D [] [] (r :: rest) enters_empty)
    as (s1 & P1 & H1); [reflexivity|].
  rewrite P1. cbn [parse_loop].
  rewrite H1; cbn [option_map]; rewrite Hr; reflexivity.
Qed.

(** X10: an operator followed by an argument of the wrong kind is
    rejected at the argument: a string where the production has a
    [NUMBER], and anything but a string where it has a string. *)
Theorem wrong_argument op rule a rest :
  term_rule_of ctx (tok op) = Some rule ->
  match rule with
  | NumberString _ | NumberOnly _ => number_of (tok a) = None
  | StringOnly _ => p_string (tok a) = None
  | StringOrNumber _ => number_of (tok a) = None /\ p_string (tok a) = None
  | Bare _ => False
  end ->
  parse ctx (op :: a :: rest) = Raises (p_error ctx (Some a)).
Proof.
  intros Hr Ha. rewrite parse_outcome.
  destruct (rule_token ctx _ _ Hr) as (S & _).
  destruct (enters_empty op S) as (R1 & R2).
  rewrite (parse_loop_shift ctx _ _ _ _ R1 R2). cbn [parse_loop].
  rewrite (reduce_waiting ctx (Some a) [] _ _ Hr).
  2: { intros act ->. exact Ha. }
  cbn [can_shift]. rewrite Hr. unfold is_number, is_string.
  destruct rule; try contradiction.
  - destruct (tok a); try discriminate; reflexivity.
  - destruct (tok a); try discriminate; reflexivity.
  - now rewrite Ha.
  - destruct Ha as (N & P). rewrite P. destruct (tok a); try discriminate; reflexivity.
Qed.

End Failures.

(** * Quoting *)

Section Quoting.

Variable ctx : context.

Lemma unquoted_facts t :
  term_rule_of ctx (unquoted t) = term_rule_of ctx t /\
  number_of (unquoted t) = number_of t /\
  p_string (unquoted t) = p_string t /\
  starts_expression (unquoted t) = starts_expression t /\
  is_connective (unquoted t) = is_connective t /\
  precedence (unquoted t) = precedence t.
Proof. destruct t; repeat split. Qed.

Lemma unquoted_one_argument a rule :
  one_argument (unquoted a) rule = one_argument a rule.
Proof.
  destruct (unquoted_facts a) as (_ & N & P & _).
  unfold one_argument. now rewrite N, P.
Qed.

Lemma unquoted_two_arguments a1 a2 rule :
  two_arguments (unquoted a1) (unquoted a2) rule = two_arguments a1 a2 rule.
Proof.
  destruct (unquoted_facts a1) as (_ & N & _).
  destruct (unquoted_facts a2) as (_ & _ & P & _).
  unfold two_arguments. now rewrite N, P.
Qed.

Lemma unquote_paren_handle stack :
  paren_handle (map unquote_sym stack) = unquote_handle (paren_handle stack).
Proof.
  destruct stack as [|[r|?] [|[?|e] [|[l|?] below]]]; try reflexivity.
  destruct r; try reflexivity; destruct l; reflexivity.
Qed.

Lemma unquote_term_handle stack :
  term_handle ctx (map unquote_sym stack) = unquote_handle (term_handle ctx stack).
Proof.
  destruct stack as [|[a|?] below]; try reflexivity.
  cbn [map unquote_sym term_handle].
  destruct (unquoted_facts a) as (-> & _).
  destruct (term_rule_of ctx a) as [[]|]; try reflexivity.
  destruct below as [|[b|?] below1]; try reflexivity.
  cbn [map unquote_sym]. destruct (unquoted_facts b) as (-> & _).
  destruct (term_rule_of ctx b) as [rule|].
  - rewrite unquoted_one_argument. now destruct (one_argument a rule).
  - destruct below1 as [|[op|?] below2]; try reflexivity.
    cbn [map unquote_sym]. destruct (unquoted_facts op) as (-> & _).
    destruct (term_rule_of ctx op) as [rule|]; [|reflexivity].
    rewrite unquoted_two_arguments. now destruct (two_arguments b a rule).
Qed.

Lemma unquote_handle_eq stack :
  handle ctx (map unquote_sym stack) = unquote_handle (handle ctx stack).
Proof.
  unfold handle. rewrite unquote_paren_handle, unquote_term_handle.
  now destruct (paren_handle stack) as [[? ?]|].
Qed.

Lemma unquoted_action t rightmost :
  action_on (Some (unquoted t)) rightmost = action_on (Some t) rightmost.
Proof. destruct t; reflexivity. Qed.

Lemma unquote_reduce_top la n :
  forall e below, (List.length below <= n)%nat ->
  reduce_top (option_map unquoted la) e (map unquote_sym below)
  = unquote_result (reduce_top la e below).
Proof.
  assert (A : forall rm, action_on (option_map unquoted la) rm = action_on la rm)
    by (intros; destruct la; [apply unquoted_action|reflexivity]).
  induction n as [|n IH]; intros e below L.
  - destruct below; [reflexivity|cbn in L; lia].
  - destruct below as [|[t|e1] rest]; [reflexivity| |].
    + cbn in L. destruct t; try reflexivity; cbn [map unquote_sym unquoted reduce_top].
      * destruct rest as [|[?|e1] rest']; try reflexivity.
        cbn [map unquote_sym reduce_top]. rewrite A.
        destruct (action_on la (Some (AND lexeme))); [reflexivity|].
        destruct (p_boolean_expr e1 lexeme e); [|reflexivity].
        cbn [bind]. apply IH. cbn in L. lia.
      * destruct rest as [|[?|e1] rest']; try reflexivity.
        cbn [map unquote_sym reduce_top]. rewrite A.
        destruct (action_on la (Some (OR lexeme))); [reflexivity|].
        destruct (p_boolean_expr e1 lexeme e); [|reflexivity].
        cbn [bind]. apply IH. cbn in L. lia.
      * rewrite A. destruct (action_on la (Some NOT)); [reflexivity|].
        cbn [p_negative_expr bind]. apply IH. lia.
      * rewrite A. destruct (action_on la (Some NEG)); [reflexivity|].
        cbn [p_negative_expr bind]. apply IH. lia.
    + cbn [map unquote_sym reduce_top]. rewrite A.
      destruct (action_on la None); [reflexivity|].
      cbn [p_list_expr bind]. apply IH. cbn in L. lia.
Qed.

Lemma unquote_follows la :
  follows_expression (option_map tok (option_map unquote la))
  = follows_expression (option_map tok la).
Proof. destruct la as [[t p]|]; [|reflexivity]. destruct t; reflexivity. Qed.

Lemma unquote_p_error la : p_error ctx (option_map unquote la) = p_error ctx la.
Proof. now destruct la. Qed.

Lemma unquote_reduce la stack :
  reduce ctx (option_map unquote la) (map unquote_sym stack)
  = unquote_result (reduce ctx la stack).
Proof.
  assert (T : forall s,
    match map unquote_sym s with
    | SE e :: below =>
        if follows_expression (option_map tok la)
        then reduce_top (option_map tok (option_map unquote la)) e below
        else Raise (p_error ctx la)
    | _ => Ok (map unquote_sym s)
    end
    = unquote_result
        match s with
        | SE e :: below =>
            if follows_expression (option_map tok la)
            then reduce_top (option_map tok la) e below
            else Raise (p_error ctx la)
        | _ => Ok s
        end).
  { intros [|[t|e] below]; try reflexivity. cbn [map unquote_sym].
    destruct (follows_expression (option_map tok la)); [|reflexivity].
    replace (option_map tok (option_map unquote la))
      with (option_map unquoted (option_map tok la)) by now destruct la.
    now apply (unquote_reduce_top _ (List.length below)). }
  unfold reduce. rewrite unquote_handle_eq, unquote_follows, unquote_p_error.
  destruct (handle ctx stack) as [[r below]|]; cbn [unquote_handle option_map].
  - destruct (follows_expression (option_map tok la)) eqn:F; [|reflexivity].
    destruct r as [e|x]; [|reflexivity]. cbn [bind].
    exact (T (SE e :: below)).
  - cbn [bind]. apply T.
Qed.

Lemma unquote_can_shift t stack :
  can_shift ctx (unquoted t) (map unquote_sym stack) = can_shift ctx t stack.
Proof.
  destruct (unquoted_facts t) as (_ & N & P & S & C & _).
  assert (In : is_number (unquoted t) = is_number t) by (destruct t; reflexivity).
  assert (Is : is_string (unquoted t) = is_string t) by (unfold is_string; now rewrite P).
  destruct stack as [|[top|e] below]; cbn [map unquote_sym can_shift].
  - exact S.
  - destruct (unquoted_facts top) as (-> & _).
    destruct (term_rule_of ctx top) as [[]|]; rewrite ?In, ?Is; try reflexivity.
    destruct top; cbn [unquoted]; rewrite ?S; try reflexivity.
    destruct below as [|[op|?] ?]; try reflexivity.
    cbn [map unquote_sym]. destruct (unquoted_facts op) as (-> & _).
    destruct (term_rule_of ctx op) as [[]|]; rewrite ?Is; reflexivity.
  - rewrite S, C. f_equal.
    destruct t; try reflexivity. destruct below as [|[[]|?] ?]; reflexivity.
Qed.

Lemma unquote_parse_loop input :
  forall stack,
  parse_loop ctx (map unquote_sym stack) (map unquote input)
  = parse_loop ctx stack input.
Proof.
  induction input as [|t rest IH]; intros stack; cbn [map parse_loop].
  - pose proof (unquote_reduce None stack) as R. cbn [option_map] in R. rewrite R.
    destruct (reduce ctx None stack) as [[|[?|e] [|? ?]]|x]; reflexivity.
  - pose proof (unquote_reduce (Some t) stack) as R. cbn [option_map] in R.
    rewrite R.
    destruct (reduce ctx (Some t) stack) as [stack'|x]; [|reflexivity].
    cbn [unquote_result unquote tok]. rewrite unquote_can_shift.
    destruct (can_shift ctx (tok t) stack'); [|reflexivity].
    apply (IH (ST (tok t) :: stack')).
Qed.

(** X11: the kind of quoting makes no difference: two queries whose
    tokens differ only in how their strings are quoted compile to the
    same result, predicate or error. *)
Theorem quoting_equivalence ts ts' :
  map unquote ts = map unquote ts' ->
  parse ctx ts = parse ctx ts'.
Proof.
  intros E. unfold parse.
  rewrite <- (unquote_parse_loop ts []), <- (unquote_parse_loop ts' []).
  now rewrite E.
Qed.

End Quoting.

(** * The term productions *)

Section Terms.

Variable ctx : context.





(** X13: the [is] term succeeds on its eleven values and on no other
    string, the [has] term on [draft] and on no other string. *)
Theorem supported_values v :
  ((exists e, p_is_term ctx v = Ok e) <-> str_in v is_values = true) /\
  ((exists e, p_has_term v = Ok e) <-> v = "draft").
Proof.
  split; split.
  - intros (e & E). destruct (str_in v is_values) eqn:S; [reflexivity|].
    rewrite (p_is_term_unsupported ctx v S) in E. discriminate.
  - cbv [is_values str_in p_is_term].
    repeat match goal with
           | |- context [String.eqb v ?x] =>
               destruct (String.eqb v x); [intros _; eexists; reflexivity|]
           end.
    discriminate.
  - intros (e & E). unfold p_has_term in E.
    destruct (String.eqb_spec v "draft"); [assumption|discriminate].
  - intros ->. eexists. reflexivity.
Qed.

(** X14: a [reviewer] argument that [int()] reads as a number is the
    user id, quoted or not; [self] is the current user. *)
Theorem reviewer_numeric_string s n sk p1 p2 :
  int_of_str s = Some n ->
  p_string sk = Some s ->
  p_reviewer_term ctx (RevStr s) = p_reviewer_term ctx (RevNum n) /\
  p_reviewer_term ctx (RevNum n)
  = Ok (InSelect (Col story_table "key")
          (select_story_keys
             [Col approval_table "story_key" == Col story_table "key";
              Col approval_table "user_key" == Col user_table "key";
              Col user_table "id" == Int n])) /\
  parse ctx [{| tok := OP_REVIEWER; lexpos := p1 |}; {| tok := sk; lexpos := p2 |}]
  = parse ctx [{| tok := OP_REVIEWER; lexpos := p1 |};
               {| tok := NUMBER n; lexpos := p2 |}] /\
  p_reviewer_term ctx (RevStr "self")
  = Ok (InSelect (Col story_table "key")
          (select_story_keys
             [Col approval_table "story_key" == Col story_table "key";
              Col approval_table "user_key" == Col user_table "key";
              Col user_table "username" == Str (username ctx)])).
Proof.
  intros Hn Hs.
  assert (E : p_reviewer_term ctx (RevStr s) = p_reviewer_term ctx (RevNum n)).
  { unfold p_reviewer_term. now rewrite Hn. }
  repeat split; [exact E|].
  rewrite (parse_single_term ctx _ (p_reviewer_term ctx (RevStr s))).
  - rewrite (parse_single_term ctx _ (p_reviewer_term ctx (RevNum n))); [|reflexivity].
    now rewrite E.
  - cbn. destruct (string_token ctx _ _ Hs) as (_ & -> & _). now rewrite Hs.
Qed.

Lemma membership_rule op rule :
  term_rule_of ctx op = Some rule ->
  membership_operator op = true ->
  match rule with
  | NumberOnly act => forall n e, act n = Ok e -> is_membership e = true
  | StringOnly act => forall s e, act s = Ok e -> is_membership e = true
  | StringOrNumber act => forall x e, act x = Ok e -> is_membership e = true
  | NumberString _ | Bare _ => False
  end.
Proof.
  destruct op; cbn; intros E M; try discriminate; injection E as <-.
  - intros x e. unfold p_reviewer_term. intros [= <-]. reflexivity.
  - intros s e [= <-]. reflexivity.
  - intros n e [= <-]. reflexivity.
  - intros s e. unfold p_label_term. destruct (label_re_match s); [|discriminate].
    intros [= <-]. reflexivity.
  - intros s e [= <-]. reflexivity.
  - intros s e. unfold p_has_term. destruct (String.eqb s "draft"); [|discriminate].
    intros [= <-]. reflexivity.
Qed.

(** X15: a membership term is never a join: the [reviewer], [commit],
    [project_key], [label], [message] and [has] terms compile to
    [Story.key] in a subquery whose first condition ties the related
    table to the story, and the [comment] term to the alternative of
    two such predicates. *)
Theorem membership_terms ts e s :
  term_value ctx (map tok ts) = Some (Ok e) ->
  (forall t, hd_error ts = Some t -> membership_operator (tok t) = true) ->
  is_membership e = true /\
  exists m1 m2,
    p_comment_term s = Ok (or_ [m1; m2]) /\
    is_membership m1 = true /\ is_membership m2 = true.
Proof.
  intros H F. split; [|do 2 eexists; repeat split].
  pose proof (term_value_tokens ctx _ _ H) as T.
  destruct ts as [|t0 ts']; [inversion T|]. specialize (F t0 eq_refl).
  cbn [map] in T.
  inversion T as [? ? Er|? rule a ? Er E1|? ? ? ? ? Er E2]; subst;
    pose proof (membership_rule _ _ Er F) as S; cbn in S; try contradiction.
  destruct rule; try contradiction; cbn in E1.
  - destruct (number_of a); [|discriminate]. injection E1 as E1. eauto.
  - destruct (p_string a); [|discriminate]. injection E1 as E1. eauto.
  - destruct (number_of a); [injection E1 as E1; eauto|].
    destruct (p_string a); [|discriminate]. injection E1 as E1. eauto.
Qed.

End Terms.

(** * The label regular expression *)

Section LabelMatches.

Lemma label_ways_sound s :
  forall run l r,
    In (l, r) (label_ways run s) ->
    (rev run ++ s = l ++ r)%list /\ (2 <= List.length l)%nat.
Proof.
  induction s as [|c s IH]; intros run l r H; [contradiction|].
  cbn [label_ways] in H. apply in_app_or in H as [H|H].
  - destruct (is_name_char c); [|contradiction].
    apply IH in H as (E & L). split; [|exact L].
    rewrite <- E. cbn [rev]. now rewrite <- app_assoc.
  - destruct run as [|prev run]; [contradiction|].
    destruct (is_alpha c || (is_digit c && negb (is_sign prev))); [|contradiction].
    destruct H as [[= <- <-]|[]]. split.
    + cbn [rev]. rewrite <- !app_assoc. reflexivity.
    + cbn [rev]. rewrite !length_app. cbn. lia.
Qed.

Lemma opt_ways_sound cls s m r :
  In (m, r) (opt_ways cls s) ->
  s = (m ++ r)%list /\ (m = [] \/ exists c, m = [c] /\ cls c = true).
Proof.
  destruct s as [|c s]; cbn.
  - intros [[= <- <-]|[]]. auto.
  - destruct (cls c) eqn:C; cbn.
    + intros [[= <- <-]|[[= <- <-]|[]]]; eauto.
    + intros [[= <- <-]|[]]. auto.
Qed.

Lemma plus_ways_sound cls s :
  forall run m r,
    In (m, r) (plus_ways cls run s) ->
    exists m', m = (rev run ++ m')%list /\ s = (m' ++ r)%list /\
               m' <> [] /\ Forall (fun c => cls c = true) m'.
Proof.
  induction s as [|c s IH]; intros run m r H; [contradiction|].
  cbn [plus_ways] in H. destruct (cls c) eqn:C; [|contradiction].
  apply in_app_or in H as [H|H].
  - apply IH in H as (m' & -> & -> & _ & F). exists (c :: m'). repeat split.
    + cbn [rev]. now rewrite <- app_assoc.
    + discriminate.
    + now constructor.
  - destruct H as [[= <- <-]|[]]. exists [c]. repeat split.
    + discriminate.
    + now constructor.
Qed.

Lemma operator_ways_sound s m r :
  In (m, r) (operator_ways s) ->
  s = (m ++ r)%list /\ In (str m) label_operators.
Proof.
  unfold operator_ways. rewrite in_flat_map. intros ((a & s1) & H1 & H2).
  rewrite in_map_iff in H2. destruct H2 as ((b & s2) & [= <- <-] & H2).
  apply opt_ways_sound in H1 as (-> & Ha). apply opt_ways_sound in H2 as (-> & Hb).
  split; [now rewrite <- app_assoc|].
  destruct Ha as [->|(c & -> & Hc)]; destruct Hb as [->|(d & -> & Hd)]; cbn [app].
  - cbn. auto.
  - apply Ascii.eqb_eq in Hd as <-. cbn. auto 7.
  - apply orb_prop in Hc as [Hc|Hc]; apply Ascii.eqb_eq in Hc as ->; cbn; auto.
  - apply Ascii.eqb_eq in Hd as <-.
    apply orb_prop in Hc as [Hc|Hc]; apply Ascii.eqb_eq in Hc as ->; cbn; auto 7.
Qed.

Lemma value_ways_sound s m r :
  In (m, r) (value_ways s) ->
  s = (m ++ r)%list /\
  exists sg d, m = (sg ++ d)%list /\ (sg = [] \/ sg = ["-"%char] \/ sg = ["+"%char]) /\
               d <> [] /\ Forall (fun c => is_digit c = true) d.
Proof.
  unfold value_ways. rewrite in_flat_map. intros ((a & s1) & H1 & H2).
  rewrite in_map_iff in H2. destruct H2 as ((b & s2) & [= <- <-] & H2).
  apply opt_ways_sound in H1 as (-> & Ha).
  apply plus_ways_sound in H2 as (d & -> & -> & Hd & Fd). cbn [rev app].
  split; [now rewrite <- app_assoc|]. exists a, d. repeat split; auto.
  destruct Ha as [->|(c & -> & Hc)]; [auto|]. right.
  apply orb_prop in Hc as [Hc|Hc]; apply Ascii.eqb_eq in Hc as ->; auto.
Qed.

Lemma digit_cases c :
  is_digit c = true ->
  is_space c = false /\ c <> "-"%char /\ c <> "+"%char /\ c <> "_"%char.
Proof.
  destruct c as [[] [] [] [] [] [] [] []]; cbn; intros H; try discriminate;
    repeat split; discriminate.
Qed.

Lemma strip_left_keeps c l : is_space c = false -> strip_left (c :: l) = c :: l.
Proof. intros H. cbn. now rewrite H. Qed.

Lemma strip_keeps c l d :
  is_space c = false -> is_space d = false ->
  strip (c :: l ++ [d]) = c :: l ++ [d].
Proof.
  intros Hc Hd. unfold strip. rewrite (strip_left_keeps c _ Hc).
  change (c :: l ++ [d])%list with ((c :: l) ++ [d])%list.
  rewrite rev_app_distr. cbn [rev app]. rewrite (strip_left_keeps d _ Hd).
  change (d :: rev l ++ [c])%list with ([d] ++ rev (c :: l))%list.
  rewrite rev_app_distr, rev_involutive. reflexivity.
Qed.

Lemma strip_single z : is_space z = false -> strip [z] = [z].
Proof.
  intros H. unfold strip. rewrite (strip_left_keeps z [] H). cbn [rev app].
  now rewrite (strip_left_keeps z [] H).
Qed.

Lemma int_digits_all d :
  Forall (fun c => is_digit c = true) d ->
  forall prev acc, d <> [] \/ prev = true ->
  int_digits prev acc d = Some (rev acc ++ d)%list.
Proof.
  induction 1 as [|c d Hc _ IH]; intros prev acc H.
  - destruct H as [H| ->]; [contradiction|]. cbn. now rewrite app_nil_r.
  - cbn [int_digits]. rewrite Hc. rewrite IH by auto. cbn [rev].
    now rewrite <- app_assoc.
Qed.

Lemma int_of_str_unsigned s c l :
  strip (list_ascii_of_string s) = c :: l ->
  c <> "-"%char -> c <> "+"%char ->
  int_of_str s = option_map (digits_val 0) (int_digits false [] (c :: l)).
Proof.
  unfold int_of_str. intros -> N1 N2.
  destruct c as [[] [] [] [] [] [] [] []]; try reflexivity; contradiction.
Qed.

(** [int()] reads a sign and digits. *)
Lemma int_of_signed_digits sg d :
  sg = [] \/ sg = ["-"%char] \/ sg = ["+"%char] ->
  d <> [] -> Forall (fun c => is_digit c = true) d ->
  exists n, int_of_str (str (sg ++ d)) = Some n.
Proof.
  intros Hs Hd Fd.
  destruct (exists_last Hd) as (d0 & z & ->).
  assert (Hz : is_digit z = true).
  { rewrite Forall_forall in Fd. apply Fd, in_or_app. right. now left. }
  destruct (digit_cases z Hz) as (Zs & Z1 & Z2 & _).
  destruct Hs as [->|[->| ->]]; cbn [app].
  - destruct d0 as [|c d0]; cbn [app] in *.
    + rewrite (int_of_str_unsigned _ z []); auto.
      * rewrite (int_digits_all [z] Fd) by (left; discriminate). eexists. reflexivity.
      * unfold str. rewrite list_ascii_of_string_of_list_ascii. now apply strip_single.
    + assert (Hc : is_digit c = true) by (inversion Fd; assumption).
      destruct (digit_cases c Hc) as (Cs & C1 & C2 & _).
      rewrite (int_of_str_unsigned _ c (d0 ++ [z])); auto.
      * rewrite (int_digits_all _ Fd) by (left; discriminate). eexists. reflexivity.
      * unfold str. rewrite list_ascii_of_string_of_list_ascii. now apply strip_keeps.
  - unfold int_of_str, str. rewrite list_ascii_of_string_of_list_ascii.
    rewrite (strip_keeps "-" d0 z eq_refl Zs).
    rewrite (int_digits_all _ Fd) by (left; exact Hd). eexists. reflexivity.
  - unfold int_of_str, str. rewrite list_ascii_of_string_of_list_ascii.
    rewrite (strip_keeps "+" d0 z eq_refl Zs).
    rewrite (int_digits_all _ Fd) by (left; exact Hd). eexists. reflexivity.
Qed.

Lemma all_ways_sound s g :
  In g (all_ways s) ->
  exists label op value tail,
    s = (label ++ op ++ value ++ tail)%list /\
    g_label g = str label /\ g_operator g = str op /\ g_value g = str value /\
    (2 <= List.length label)%nat /\
    In (str op) label_operators /\
    exists sg d, value = (sg ++ d)%list /\
                 (sg = [] \/ sg = ["-"%char] \/ sg = ["+"%char]) /\
                 d <> [] /\ Forall (fun c => is_digit c = true) d.
Proof.
  unfold all_ways. rewrite in_flat_map. intros ((label & s1) & H1 & H).
  rewrite in_flat_map in H. destruct H as ((op & s2) & H2 & H).
  rewrite in_flat_map in H. destruct H as ((value & s3) & H3 & H).
  rewrite in_map_iff in H. destruct H as (user & <- & _).
  apply label_ways_sound in H1 as (E1 & L1). cbn [rev app] in E1.
  apply operator_ways_sound in H2 as (E2 & O2).
  apply value_ways_sound in H3 as (E3 & V3).
  exists label, op, value, s3. cbn. repeat split; auto.
  now rewrite E1, E2, E3.
Qed.

(** X16: whenever [label_re] matches, the label, the operator and the
    value are consecutive pieces of the input from its start; the
    label has at least two characters, the operator is one of the six
    the pattern admits, and the value is a sign and digits that
    [int()] reads, so the conversion cannot fail. *)
Theorem label_match_sound v g :
  label_re_match v = Some g ->
  (exists tail, v = g_label g ++ g_operator g ++ g_value g ++ tail) /\
  (2 <= String.length (g_label g))%nat /\
  In (g_operator g) label_operators /\
  exists n, int_of_str (g_value g) = Some n.
Proof.
  unfold label_re_match. intros H.
  assert (I : In g (all_ways (list_ascii_of_string v))).
  { destruct (all_ways (list_ascii_of_string v)); [discriminate|].
    injection H as <-. now left. }
  apply all_ways_sound in I
    as (label & op & value & tail & E & -> & -> & -> & L & O & sg & d & -> & S & D & F).
  repeat split.
  - exists (str tail). rewrite <- (string_of_list_ascii_of_string v), E.
    unfold str. clear.
    assert (A : forall x y, string_of_list_ascii (x ++ y)
                            = string_of_list_ascii x ++ string_of_list_ascii y).
    { induction x as [|c x IH]; intros y; [reflexivity|]. cbn. now rewrite IH. }
    now rewrite !A.
  - unfold str. clear - L. revert L. generalize label. clear.
    assert (A : forall x, String.length (string_of_list_ascii x) = List.length x).
    { induction x as [|c x IH]; [reflexivity|]. cbn. now rewrite IH. }
    intros label. now rewrite A.
  - exact O.
  - now apply int_of_signed_digits.
Qed.

End LabelMatches.

Lemma length_list_ascii s :
  List.length (list_ascii_of_string s) = String.length s.
Proof. induction s as [|c s IH]; [reflexivity|]. cbn. now rewrite IH. Qed.

(** X17: a label value of fewer than three characters, or with no
    digit in it, does not match [label_re]; the production then
    fails on [args.group] with [AttributeError], which is not the
    structured error. *)
Theorem label_needs_value ctx v sk p1 p2 :
  (String.length v < 3)%nat \/
  (forall c, In c (list_ascii_of_string v) -> is_digit c = false) ->
  p_string sk = Some v ->
  label_re_match v = None /\
  p_label_term ctx v = Raise AttributeError /\
  parse ctx [{| tok := OP_LABEL; lexpos := p1 |}; {| tok := sk; lexpos := p2 |}]
  = Raises AttributeError.
Proof.
  intros H Hs.
  assert (N : label_re_match v = None).
  { destruct (label_re_match v) as [g|] eqn:M; [|reflexivity]. exfalso.
    unfold label_re_match in M.
    assert (I : In g (all_ways (list_ascii_of_string v))).
    { destruct (all_ways (list_ascii_of_string v)); [discriminate|].
      injection M as <-. now left. }
    apply all_ways_sound in I
      as (label & op & value & tail & E & _ & _ & _ & L & _ & sg & d & -> & _ & D & F).
    destruct d as [|z d]; [contradiction|].
    destruct H as [H|H].
    - rewrite <- length_list_ascii, E in H. rewrite !length_app in H. cbn in H. lia.
    - assert (Z : is_digit z = true) by (inversion F; assumption).
      rewrite (H z) in Z; [discriminate|].
      rewrite E. apply in_or_app. right. apply in_or_app. right.
      apply in_or_app. left. apply in_or_app. right. now left. }
  assert (E : p_label_term ctx v = Raise AttributeError)
    by (unfold p_label_term; now rewrite N).
  repeat split; auto.
  rewrite (parse_single_term ctx _ (p_label_term ctx v)).
  - now rewrite E.
  - cbn. now rewrite Hs.
Qed.

Lemma label_needs_value_witness :
  label_re_match "Verified" = None /\
  p_label_term ctx_alice "Verified" = Raise AttributeError /\
  parse ctx_alice [at0 OP_LABEL; {| tok := USTRING "Verified"; lexpos := 6 |}]
  = Raises AttributeError.
Proof.
  apply (label_needs_value ctx_alice "Verified" (USTRING "Verified") 0%nat 6%nat);
    [right|reflexivity].
  intros c H. cbn in H.
  repeat (destruct H as [<-|H]; [reflexivity|]). contradiction.
Defined.

Lemma label_match_sound_witness :
  (exists tail, "Code-Review>=1,user=self" = "Code-Review" ++ ">=" ++ "1" ++ tail) /\
  (2 <= String.length "Code-Review")%nat /\
  In ">=" label_operators /\
  exists n, int_of_str "1" = Some n.
Proof.
  apply (label_match_sound "Code-Review>=1,user=self"
           {| g_label := "Code-Review"; g_operator := ">="; g_value := "1";
              g_user := Some "self" |}).
  reflexivity.
Defined.

(** * Durations *)

Lemma multiplier_bounds unit :
  1 <= Spec.multiplier unit <= 31536000.
Proof.
  unfold Spec.multiplier.
  repeat match goal with
         | |- context [if ?b then _ else _] => destruct b
         end; lia.
Qed.

(** X18: the [recentlyseen] term takes its duration from the same
    unit table as the [age] term, and writes it into the text
    [-<seconds> seconds] that is subtracted from the latest
    [last_seen]. *)
Theorem recentlyseen_duration ctx n unit p1 p2 p3 :
  p_recentlyseen_term n unit
  = Ok (Cmp OpGe (Col story_table "last_seen")
          (Select [Func "datetime"
                     [Func "max" [Col story_table "last_seen"];
                      Str ("-" ++ str_of_int (Spec.duration n unit) ++ " seconds")]]
             None)) /\
  parse ctx [{| tok := OP_RECENTLYSEEN; lexpos := p1 |};
             {| tok := NUMBER n; lexpos := p2 |};
             {| tok := USTRING unit; lexpos := p3 |}]
  = outcome_of (p_recentlyseen_term n unit).
Proof.
  split.
  - unfold p_recentlyseen_term. now rewrite age_to_delta_duration.
  - now apply parse_single_term.
Qed.

(** X19: for a number that is not negative, the duration is at least
    the number and at most the number of years, and it grows with the
    number; zero stays zero. *)
Theorem age_to_delta_bounds n m unit :
  0 <= n <= m ->
  n <= age_to_delta n unit <= 31536000 * n /\
  age_to_delta n unit <= age_to_delta m unit /\
  age_to_delta 0 unit = 0.
Proof.
  intros H. rewrite !age_to_delta_duration. unfold Spec.duration.
  pose proof (multiplier_bounds unit). repeat split; nia.
Qed.

Lemma age_to_delta_bounds_witness :
  0 <= 2 <= 3 /\
  2 <= age_to_delta 2 "weeks" <= 31536000 * 2 /\
  age_to_delta 2 "weeks" <= age_to_delta 3 "weeks" /\
  age_to_delta 0 "weeks" = 0.
Proof.
  split; [lia|]. apply (age_to_delta_bounds 2 3 "weeks"). lia.
Defined.

(** * Patterns *)

Section Patterns.

Variable ctx : context.

Ltac case_all :=
  repeat match goal with
         | |- context [if ?b then _ else _] => destruct b
         | |- context [match ?x with Some _ => _ | None => _ end] => destruct x
         end.

Lemma label_filters_plain args :
  uses_matches (and_ (label_filters ctx args)) = false.
Proof.
  unfold label_filters, label_value_filter, label_user_filter, user_literal.
  case_all; reflexivity.
Qed.

Lemma pattern_rule op rule :
  term_rule_of ctx op = Some rule ->
  match rule with
  | NumberString act => forall n u e, act n u = Ok e -> uses_matches e = false
  | NumberOnly act => forall n e, act n = Ok e -> uses_matches e = false
  | StringOnly act =>
      forall s e, act s = Ok e ->
        uses_matches e = pattern_operator op && startswith_char "^" s
  | StringOrNumber act => forall x e, act x = Ok e -> uses_matches e = false
  | Bare act => forall e, act = Ok e -> uses_matches e = false
  end.
Proof.
  destruct op; cbn [term_rule_of]; intros E; try discriminate; injection E as <-;
    cbn [pattern_operator andb].
  - intros n u e [= <-]. reflexivity.
  - intros n u e [= <-]. reflexivity.
  - intros n e [= <-]. reflexivity.
  - intros s e. unfold p_owner_term. destruct (String.eqb s "self");
      intros [= <-]; reflexivity.
  - intros x e. unfold p_reviewer_term.
    destruct x as [s|n]; [destruct (int_of_str s); [|destruct (String.eqb s "self")]|];
      intros [= <-]; reflexivity.
  - intros s e [= <-]. reflexivity.
  - intros s e. unfold p_project_term. destruct (startswith_char "^" s);
      intros [= <-]; reflexivity.
  - intros s e [= <-]. reflexivity.
  - intros n e [= <-]. reflexivity.
  - intros s e. unfold p_branch_term. destruct (startswith_char "^" s);
      intros [= <-]; reflexivity.
  - intros s e. unfold p_tag_term. destruct (startswith_char "^" s);
      intros [= <-]; reflexivity.
  - intros s e. unfold p_ref_term. destruct (startswith_char "^" s);
      intros [= <-]; reflexivity.
  - intros s e. unfold p_label_term. destruct (label_re_match s); [|discriminate].
    intros [= <-].
    transitivity (uses_matches (and_ (label_filters ctx g)));
      [reflexivity|apply label_filters_plain].
  - intros s e [= <-]. reflexivity.
  - intros s e [= <-]. reflexivity.
  - intros s e. unfold p_has_term. destruct (String.eqb s "draft"); [|discriminate].
    intros [= <-]. reflexivity.
  - intros s e. unfold p_is_term. case_all; intros [= <-]; reflexivity.
  - intros s e. unfold p_status_term. case_all; intros [= <-]; reflexivity.
  - intros s e. unfold p_file_term. destruct (startswith_char "^" s);
      intros [= <-]; reflexivity.
  - intros n e [= <-]. reflexivity.
  - discriminate.
Qed.

(** X20: the leading [^] switches to pattern matching in the
    [project], [branch], [tag], [ref] and [file] terms and nowhere
    else: the predicate of a term calls [matches] exactly when the
    operator is one of the five and the string starts with [^]. *)
Theorem pattern_marker op a v e :
  term_value ctx [op; a] = Some (Ok e) ->
  p_string a = Some v ->
  uses_matches e = pattern_operator op && startswith_char "^" v.
Proof.
  intros H Hv. cbn [term_value] in H.
  destruct (term_rule_of ctx op) as [rule|] eqn:Er; [|discriminate].
  pose proof (pattern_rule op rule Er) as P.
  destruct (string_token ctx a v Hv) as (_ & N & _).
  destruct rule; cbn in H; rewrite ?N, ?Hv in H; cbn in H; try discriminate;
    injection H as H.
  - now apply P.
  - rewrite (P _ _ H). destruct op; try discriminate; reflexivity.
Qed.

End Patterns.

(** * Offsets *)

Section Offsets.

Variable ctx : context.

Lemma reduce_same_token t t' stack stack' :
  tok t = tok t' ->
  reduce ctx (Some t) stack = Ok stack' ->
  reduce ctx (Some t') stack = Ok stack'.
Proof.
  intros E. unfold reduce. cbn [option_map]. rewrite <- E.
  destruct (handle ctx stack) as [[r below]|].
  - destruct (follows_expression (Some (tok t))); [|discriminate].
    destruct r as [e|x]; [|discriminate]. cbn [bind]. auto.
  - cbn [bind]. destruct stack as [|[?|e] below]; auto.
    destruct (follows_expression (Some (tok t))); [auto|discriminate].
Qed.

Lemma parse_loop_same_tokens ts :
  forall ts' stack e,
  map tok ts = map tok ts' ->
  parse_loop ctx stack ts = Ok e ->
  parse_loop ctx stack ts' = Ok e.
Proof.
  induction ts as [|t ts IH]; intros [|t' ts'] stack e E; try discriminate.
  - auto.
  - cbn [map] in E. injection E as Et E. cbn [parse_loop].
    destruct (reduce ctx (Some t) stack) as [stack'|x] eqn:R; [|discriminate].
    rewrite (reduce_same_token t t' stack stack' Et R), <- Et.
    destruct (can_shift ctx (tok t) stack'); [|discriminate].
    now apply IH.
Qed.

(** X21: the compiled predicate depends on the kinds and values of
    the tokens only, not on their offsets in the query: two token
    streams that differ in offsets alone compile to the same
    predicate. *)
Theorem offsets_irrelevant ts ts' e :
  map tok ts = map tok ts' ->
  parse ctx ts = Returns e ->
  parse ctx ts' = Returns e.
Proof.
  intros E. unfold parse.
  destruct (parse_loop ctx [] ts) as [e0|[m| |]] eqn:P; try discriminate.
  intros [= <-]. now rewrite (parse_loop_same_tokens ts ts' [] e0 E P).
Qed.

End Offsets.

(** * Where the other exceptions come from *)

Section Provenance.

Variable ctx : context.
Variable allowed : token -> bool.
Variable expected : exn -> bool.

Hypothesis expected_structured : forall msg, expected (SearchSyntaxError msg) = true.
Hypothesis allowed_rule :
  forall op rule,
    term_rule_of ctx op = Some rule -> allowed op = true ->
    rule_raises_only expected rule.

Lemma p_error_expected la : expected (p_error ctx la) = true.
Proof. destruct la; apply expected_structured. Qed.

Lemma term_tokens_expected ts r :
  term_tokens ctx ts r ->
  Forall (fun t => allowed t = true) ts ->
  raises_only expected r.
Proof.
  intros H F. inversion H as [? ? Er|? rule a ? Er E1|? ? ? ? ? Er E2]; subst;
    inversion F as [|? ? P _]; subst;
    pose proof (allowed_rule _ _ Er P) as S; cbn in S; auto.
  destruct rule; cbn in E1; try discriminate.
  - destruct (number_of a); cbn in E1; try discriminate. injection E1 as <-. apply S.
  - destruct (p_string a); cbn in E1; try discriminate. injection E1 as <-. apply S.
  - destruct (number_of a); [injection E1 as <-; apply S|].
    destruct (p_string a); cbn in E1; try discriminate. injection E1 as <-. apply S.
Qed.

Lemma allowed_stack_tokens ts below :
  Forall (sym_of allowed) (rev (map ST ts) ++ below)%list ->
  Forall (fun t => allowed t = true) ts /\ Forall (sym_of allowed) below.
Proof.
  intros F. apply Forall_app in F as (F1 & F2). split; [|exact F2].
  apply Forall_rev in F1. rewrite rev_involutive in F1.
  rewrite Forall_map in F1. exact F1.
Qed.

Lemma handle_expected stack r below :
  Forall (sym_of allowed) stack ->
  handle ctx stack = Some (r, below) ->
  raises_only expected r /\ Forall (sym_of allowed) below.
Proof.
  intros F. unfold handle. destruct (paren_handle stack) as [h|] eqn:Ep.
  - destruct (paren_handle_inv _ _ Ep) as (e & b & -> & ->).
    intros [= <- <-]. split; [exact I|].
    inversion F as [|? ? _ F1]; inversion F1 as [|? ? _ F2];
      inversion F2 as [|? ? _ F3]; subst. exact F3.
  - intros H. destruct (term_handle_inv ctx _ _ _ H) as (ts & -> & T).
    destruct (allowed_stack_tokens _ _ F) as (Ft & Fb).
    split; [|exact Fb]. eapply term_tokens_expected; eauto.
Qed.

Lemma reduce_top_expected la n :
  forall e below, (List.length below <= n)%nat ->
  Forall (sym_of allowed) below ->
  match reduce_top la e below with
  | Ok stack => Forall (sym_of allowed) stack
  | Raise x => expected x = true
  end.
Proof.
  induction n as [|n IH]; intros e below L F.
  - destruct below; [|cbn in L; lia]. cbn. repeat constructor.
  - destruct below as [|[t|e1] rest].
    + cbn. repeat constructor.
    + assert (Fr : Forall (sym_of allowed) rest) by (inversion F; assumption).
      assert (D : Forall (sym_of allowed) (SE e :: ST t :: rest))
        by (constructor; [exact I|exact F]).
      cbn in L.
      destruct t; try exact D; cbn [reduce_top].
      * destruct rest as [|[?|e1] rest']; try exact D.
        destruct (action_on la (Some (AND lexeme))); [exact D|].
        unfold p_boolean_expr.
        destruct (String.eqb (lower lexeme) "and");
          [|destruct (String.eqb (lower lexeme) "or")]; cbn [bind];
          try apply expected_structured;
          apply IH; try (cbn in L; lia); inversion Fr; assumption.
      * destruct rest as [|[?|e1] rest']; try exact D.
        destruct (action_on la (Some (OR lexeme))); [exact D|].
        unfold p_boolean_expr.
        destruct (String.eqb (lower lexeme) "and");
          [|destruct (String.eqb (lower lexeme) "or")]; cbn [bind];
          try apply expected_structured;
          apply IH; try (cbn in L; lia); inversion Fr; assumption.
      * destruct (action_on la (Some NOT)); [exact D|].
        cbn. apply IH; [lia|exact Fr].
      * destruct (action_on la (Some NEG)); [exact D|].
        cbn. apply IH; [lia|exact Fr].
    + cbn [reduce_top]. destruct (action_on la None).
      * constructor; [exact I|exact F].
      * cbn. apply IH; [cbn in L; lia|inversion F; assumption].
Qed.

Lemma reduce_expected la stack :
  Forall (sym_of allowed) stack ->
  match reduce ctx la stack with
  | Ok stack' => Forall (sym_of allowed) stack'
  | Raise x => expected x = true
  end.
Proof.
  intros F. unfold reduce.
  assert (T : forall s, Forall (sym_of allowed) s ->
    match
      match s with
      | SE e :: below =>
          if follows_expression (option_map tok la)
          then reduce_top (option_map tok la) e below
          else Raise (p_error ctx la)
      | _ => Ok s
      end
    with
    | Ok stack' => Forall (sym_of allowed) stack'
    | Raise x => expected x = true
    end).
  { intros [|[t|e] below] Fs; try exact Fs.
    destruct (follows_expression (option_map tok la)).
    - apply (reduce_top_expected _ (List.length below)); [lia|inversion Fs; assumption].
    - apply p_error_expected. }
  destruct (handle ctx stack) as [[r below]|] eqn:H.
  - destruct (handle_expected _ _ _ F H) as (Sr & Fb).
    destruct (follows_expression (option_map tok la)) eqn:Fo.
    + destruct r as [e|x]; cbn in Sr; cbn [bind].
      * apply (T (SE e :: below)). constructor; [exact I|exact Fb].
      * exact Sr.
    + cbn. apply p_error_expected.
  - cbn [bind]. apply T, F.
Qed.

Lemma parse_loop_expected input :
  forall stack,
  Forall (sym_of allowed) stack ->
  forallb (fun t => allowed (tok t)) input = true ->
  raises_only expected (parse_loop ctx stack input).
Proof.
  induction input as [|t rest IH]; intros stack F P; cbn [parse_loop].
  - pose proof (reduce_expected None stack F) as R.
    destruct (reduce ctx None stack) as [[|[?|e] [|? ?]]|x]; cbn;
      auto using p_error_expected.
  - cbn in P. apply andb_prop in P as (Pt & Pr).
    pose proof (reduce_expected (Some t) stack F) as R.
    destruct (reduce ctx (Some t) stack) as [stack'|x]; [|exact R].
    destruct (can_shift ctx (tok t) stack'); [|apply p_error_expected].
    apply IH; [|exact Pr]. constructor; [exact Pt|exact R].
Qed.

End Provenance.

Ltac case_rule :=
  repeat match goal with
         | |- context [if ?b then _ else _] => destruct b
         | |- context [match ?x with Some _ => _ | None => _ end] => destruct x
         end.

Lemma rules_without_label ctx op rule :
  term_rule_of ctx op = Some rule ->
  negb (is_label_operator op) = true ->
  rule_raises_only (fun x => negb (is_attribute_error x)) rule.
Proof.
  destruct op; cbn; intros E P; try discriminate; injection E as <-; cbn; intros;
    try exact I;
    cbv [p_owner_term p_project_term p_branch_term p_tag_term p_ref_term
         p_has_term p_is_term p_file_term p_status_term p_op_term];
    case_rule; cbn; auto.
Qed.

Lemma rules_without_generic ctx op rule :
  term_rule_of ctx op = Some rule ->
  negb (is_generic_operator op) = true ->
  rule_raises_only (fun x => negb (is_builtin_syntax_error x)) rule.
Proof.
  destruct op; cbn; intros E P; try discriminate; injection E as <-; cbn; intros;
    try exact I;
    cbv [p_owner_term p_project_term p_branch_term p_tag_term p_ref_term
         p_has_term p_is_term p_file_term p_status_term p_label_term];
    case_rule; cbn; auto.
Qed.

(** X22: the two failures that are not the structured error have one
    source each: a query without a label term never fails with
    [AttributeError], and a query without a generic operator token
    never starts yacc's error recovery. *)
Theorem other_failures_sources ctx ts :
  (forallb (fun t => negb (is_label_operator (tok t))) ts = true ->
   parse ctx ts <> Raises AttributeError) /\
  (forallb (fun t => negb (is_generic_operator (tok t))) ts = true ->
   parse ctx ts <> ErrorRecovery).
Proof.
  split; intros P.
  - pose proof (parse_loop_expected ctx (fun t => negb (is_label_operator t))
                  (fun x => negb (is_attribute_error x)) (fun _ => eq_refl)
                  (rules_without_label ctx) ts [] (Forall_nil _) P) as H.
    unfold parse. destruct (parse_loop ctx [] ts) as [e|[m| |]]; cbn in H;
      discriminate.
  - pose proof (parse_loop_expected ctx (fun t => negb (is_generic_operator t))
                  (fun x => negb (is_builtin_syntax_error x)) (fun _ => eq_refl)
                  (rules_without_generic ctx) ts [] (Forall_nil _) P) as H.
    unfold parse. destruct (parse_loop ctx [] ts) as [e|[m| |]]; cbn in H;
      discriminate.
Qed.

(** * Examples *)

Lemma juxtaposition_groups_right_witness :
  parse ctx_alice (owner_self_tokens ++ status_open_tokens ++ limit_tokens)
  = Returns (and_ [owner_self_predicate; and_ [status_open_predicate; PyBool true]]).
Proof.
  apply (juxtaposition_groups_right ctx_alice owner_self_tokens status_open_tokens
           limit_tokens owner_self_predicate status_open_predicate (PyBool true));
    reflexivity.
Defined.

Lemma connectives_group_right_witness :
  parse ctx_alice
    (owner_self_tokens ++ {| tok := AND "AND"; lexpos := 7 |}
       :: status_open_tokens ++ {| tok := OR "or"; lexpos := 20 |} :: limit_tokens)
  = Returns (and_ [owner_self_predicate; or_ [status_open_predicate; PyBool true]]) /\
  parse ctx_alice
    (owner_self_tokens ++ {| tok := OR "or"; lexpos := 7 |}
       :: status_open_tokens ++ {| tok := AND "AND"; lexpos := 20 |} :: limit_tokens)
  = Returns (or_ [owner_self_predicate; and_ [status_open_predicate; PyBool true]]).
Proof.
  apply (connectives_group_right ctx_alice owner_self_tokens status_open_tokens
           limit_tokens owner_self_predicate status_open_predicate (PyBool true)
           eq_refl eq_refl eq_refl "AND" "or" 7%nat 20%nat); reflexivity.
Defined.

Lemma parentheses_group_witness :
  parse ctx_alice
    (({| tok := LPAREN; lexpos := 0 |}
        :: (owner_self_tokens ++ {| tok := OR "or"; lexpos := 7 |} :: status_open_tokens)
        ++ [{| tok := RPAREN; lexpos := 20 |}])
     ++ {| tok := AND "and"; lexpos := 21 |} :: limit_tokens)
  = Returns (and_ [or_ [owner_self_predicate; status_open_predicate]; PyBool true]) /\
  parse ctx_alice
    ({| tok := NOT; lexpos := 0 |}
       :: {| tok := LPAREN; lexpos := 0 |}
       :: (owner_self_tokens ++ {| tok := OR "or"; lexpos := 7 |} :: status_open_tokens)
       ++ [{| tok := RPAREN; lexpos := 20 |}])
  = Returns (not_ (or_ [owner_self_predicate; status_open_predicate])).
Proof.
  apply (parentheses_group ctx_alice owner_self_tokens status_open_tokens
           limit_tokens owner_self_predicate status_open_predicate (PyBool true)
           eq_refl eq_refl eq_refl "and" "or" 0%nat 20%nat 7%nat 21%nat 0%nat);
    reflexivity.
Defined.

Lemma negation_scope_witness :
  parse ctx_alice ({| tok := NEG; lexpos := 0 |} :: owner_self_tokens ++ status_open_tokens)
  = Returns (and_ [not_ owner_self_predicate; status_open_predicate]) /\
  parse ctx_alice
    ({| tok := NEG; lexpos := 0 |} :: {| tok := NOT; lexpos := 1 |} :: owner_self_tokens)
  = Returns (not_ (not_ owner_self_predicate)) /\
  parse ctx_alice ({| tok := NEG; lexpos := 0 |} :: owner_self_tokens)
  = parse ctx_alice ({| tok := NOT; lexpos := 0 |} :: owner_self_tokens).
Proof.
  apply (negation_scope ctx_alice owner_self_tokens status_open_tokens
           owner_self_predicate status_open_predicate eq_refl eq_refl
           NEG NOT 0%nat 1%nat); reflexivity.
Defined.

Lemma connective_by_lexeme_witness :
  parse ctx_alice
    (owner_self_tokens ++ {| tok := OR "&&"; lexpos := 7 |} :: status_open_tokens)
  = Raises (SearchSyntaxError "Boolean && not recognized").
Proof.
  refine (proj2 (proj2 (proj2
    (connective_by_lexeme ctx_alice owner_self_tokens status_open_tokens
       owner_self_predicate status_open_predicate
       {| tok := OR "&&"; lexpos := 7 |} "&&" eq_refl eq_refl eq_refl))) _ _);
    discriminate.
Defined.

Lemma incomplete_query_witness :
  parse ctx_alice (status_open_tokens ++ [{| tok := AND "and"; lexpos := 23 |}])
  = Raises (SearchSyntaxError "Syntax error: EOF in search string") /\
  parse ctx_alice ({| tok := LPAREN; lexpos := 0 |} :: status_open_tokens)
  = Raises (SearchSyntaxError "Syntax error: EOF in search string") /\
  parse ctx_alice [{| tok := OP_AGE; lexpos := 0 |}]
  = Raises (SearchSyntaxError "Syntax error: EOF in search string").
Proof.
  refine (proj2 (incomplete_query ctx_alice status_open_tokens status_open_predicate
            {| tok := AND "and"; lexpos := 23 |} {| tok := LPAREN; lexpos := 0 |}
            {| tok := OP_AGE; lexpos := 0 |} (NumberString (p_age_term ctx_alice))
            _ eq_refl eq_refl eq_refl _)).
  - apply derives_operand, derives_term. reflexivity.
  - discriminate.
Defined.

Lemma bare_value_rejected_witness :
  parse ctx_alice ({| tok := USTRING "nova"; lexpos := 0 |} :: status_open_tokens)
  = Raises (p_error ctx_alice (Some {| tok := USTRING "nova"; lexpos := 0 |})).
Proof.
  refine (proj1 (bare_value_rejected ctx_alice {| tok := USTRING "nova"; lexpos := 0 |}
                   status_open_tokens _)).
  reflexivity.
Defined.

Lemma unmatched_parenthesis_witness :
  parse ctx_alice (status_open_tokens ++ {| tok := RPAREN; lexpos := 22 |} :: limit_tokens)
  = Raises (p_error ctx_alice (Some {| tok := RPAREN; lexpos := 22 |})).
Proof.
  apply (unmatched_parenthesis ctx_alice status_open_tokens status_open_predicate).
  - apply derives_operand, derives_term. reflexivity.
  - reflexivity.
Defined.

Lemma wrong_argument_witness :
  parse ctx_alice [{| tok := OP_OWNER; lexpos := 0 |}; {| tok := NUMBER 123; lexpos := 6 |}]
  = Raises (p_error ctx_alice (Some {| tok := NUMBER 123; lexpos := 6 |})).
Proof.
  apply (wrong_argument ctx_alice {| tok := OP_OWNER; lexpos := 0 |}
           (StringOnly (p_owner_term ctx_alice))); reflexivity.
Defined.

Lemma quoting_equivalence_witness :
  parse ctx_alice [{| tok := OP_PROJECT; lexpos := 0 |};
                   {| tok := SSTRING "foo"; lexpos := 8 |}]
  = parse ctx_alice [{| tok := OP_PROJECT; lexpos := 0 |};
                     {| tok := DSTRING "foo"; lexpos := 8 |}].
Proof. apply quoting_equivalence. reflexivity. Defined.


Lemma supported_values_witness :
  str_in "held" is_values = true /\ exists e, p_is_term ctx_alice "held" = Ok e.
Proof.
  split; [reflexivity|].
  apply (proj2 (proj1 (supported_values ctx_alice "held"))). reflexivity.
Defined.

Lemma reviewer_numeric_string_witness :
  int_of_str "12" = Some 12 /\
  p_reviewer_term ctx_alice (RevStr "12") = p_reviewer_term ctx_alice (RevNum 12).
Proof.
  split; [reflexivity|].
  refine (proj1 (reviewer_numeric_string ctx_alice "12" 12 (DSTRING "12")
                   0%nat 9%nat _ _)); reflexivity.
Defined.

Lemma membership_terms_witness :
  is_membership
    (InSelect (Col story_table "key")
       (select_story_keys
          [Col revision_table "story_key" == Col story_table "key";
           Col revision_table "commit" == Str "abc123"])) = true.
Proof.
  refine (proj1 (membership_terms ctx_alice
                   [{| tok := OP_COMMIT; lexpos := 0 |};
                    {| tok := USTRING "abc123"; lexpos := 7 |}] _ "fix" _ _)).
  - reflexivity.
  - intros t [= <-]. reflexivity.
Defined.

Lemma pattern_marker_witness :
  uses_matches (Func "matches" [Str "^stable/.*"; Col story_table "branch"]) = true.
Proof.
  apply (pattern_marker ctx_alice OP_BRANCH (USTRING "^stable/.*") "^stable/.*");
    reflexivity.
Defined.

Lemma offsets_irrelevant_witness :
  parse ctx_alice [{| tok := OP_STATUS; lexpos := 4 |};
                   {| tok := USTRING "open"; lexpos := 40 |}]
  = Returns status_open_predicate.
Proof.
  apply (offsets_irrelevant ctx_alice status_open_tokens); reflexivity.
Defined.

Lemma other_failures_sources_witness :
  parse ctx_alice status_open_tokens <> Raises AttributeError /\
  parse ctx_alice status_open_tokens <> ErrorRecovery.
Proof.
  split.
  - apply (proj1 (other_failures_sources ctx_alice status_open_tokens)). reflexivity.
  - apply (proj2 (other_failures_sources ctx_alice status_open_tokens)). reflexivity.
Defined.
